(** * GeminiImageGenerator: the prompt/response controller and the image export

    A shallow embedding of [src/components/GeminiImageGenerator.tsx].

    The component keeps six [useState] cells.  Its two handlers,
    [generateImage] and [saveImage], read the cells through the closure of
    the render in which they were created and write them through the
    setters.  A handler is modelled as the ordered list of effects it
    performs (setter calls, the call to the generation service, the save
    request) together with the exception that escapes it, if any; the cells
    after the handler are the cells before it with the setter calls applied
    in order. *)

From Stdlib Require Import String Ascii List Arith NArith ZArith Bool Lia.
Import ListNotations.
Open Scope string_scope.
Set Warnings "-register-all".

(** ** JavaScript values used by the component *)

Module JS.

(** A string is truthy when it is not empty. *)
Definition truthy (s : string) : bool := negb (s =? "").

(** The double quote, the line feed and the other characters the
    serializer names. *)
Definition dquote : ascii := "034"%char.
Definition backslash : ascii := "092"%char.
Definition LF : ascii := "010"%char.

Definition str (c : ascii) : string := String c EmptyString.

(** A thrown value, as far as the handlers look at it: [err.message]. *)
Record Exception := { message : option string }.

(** [err.message || d] *)
Definition message_or (err : Exception) (d : string) : string :=
  match message err with
  | Some m => if truthy m then m else d
  | None => d
  end.

(** [Array.prototype.includes] on an array of strings. *)
Definition includes (l : list string) (x : string) : bool :=
  existsb (String.eqb x) l.

(** [Array.prototype.join] *)
Fixpoint join (sep : string) (l : list string) : string :=
  match l with
  | [] => ""
  | [x] => x
  | x :: rest => x ++ sep ++ join sep rest
  end.

(** [a.push(x)] and the spread [[...a, x]]: the elements of [a] followed
    by [x]. *)
Definition push {A} (a : list A) (x : A) : list A := (a ++ [x])%list.

(** [a?.f]: the access is skipped when [a] is undefined. *)
Definition chain {A B} (a : option A) (f : A -> option B) : option B :=
  match a with
  | Some x => f x
  | None => None
  end.

(** Truthiness of the result of an optional chain that ends in a boolean. *)
Definition truthy_opt (o : option bool) : bool :=
  match o with
  | Some b => b
  | None => false
  end.

End JS.

Notation "a ?. f" := (JS.chain a f) (at level 49, left associativity).

(** ** The response of the generation service *)

Record InlineData := { mimeType : string; data : string }.

Record Part := { text : option string; inlineData : option InlineData }.

Record Content := { parts : option (list Part); role : option string }.

Record SafetyAttributes := { blockedCategories : option (list string) }.

Record Candidate := {
  content : option Content;
  safetyAttributes : option SafetyAttributes
}.

Record Response := { candidates : option (list Candidate) }.

(** The argument of [model.generateContent]. *)
Record GenerationConfig := { responseModalities : list string }.

Record GenerateContentRequest := {
  contents : list Content;
  generationConfig : GenerationConfig
}.

(** ** JSON.stringify(value, null, 2)

    The serializer is the platform's.  It is modelled on the values a
    [Response] is made of: objects, arrays and strings; a property whose
    value is undefined is left out. *)

Module JSON.

Inductive value :=
| Str (s : string)
| Arr (items : list value)
| Obj (props : list (string * value)).

Definition hex_digit (n : N) : ascii :=
  if (n <? 10)%N then ascii_of_N (48 + n) else ascii_of_N (87 + n).

(** [\u00XX] for a control character. *)
Definition unicode_escape (c : ascii) : string :=
  let n := N_of_ascii c in
  String JS.backslash
    ("u00" ++ String (hex_digit (n / 16)) (String (hex_digit (n mod 16)) "")).

Definition quote_char (c : ascii) : string :=
  let n := N_of_ascii c in
  if (n =? 34)%N then String JS.backslash (JS.str JS.dquote)
  else if (n =? 92)%N then String JS.backslash (JS.str JS.backslash)
  else if (n =? 8)%N then String JS.backslash "b"
  else if (n =? 9)%N then String JS.backslash "t"
  else if (n =? 10)%N then String JS.backslash "n"
  else if (n =? 12)%N then String JS.backslash "f"
  else if (n =? 13)%N then String JS.backslash "r"
  else if (n <? 32)%N then unicode_escape c
  else JS.str c.

Fixpoint quote_body (s : string) : string :=
  match s with
  | EmptyString => ""
  | String c rest => quote_char c ++ quote_body rest
  end.

Definition quote (s : string) : string :=
  JS.str JS.dquote ++ quote_body s ++ JS.str JS.dquote.

Definition gap : string := "  ".

Fixpoint serialize (indent : string) (v : value) : string :=
  match v with
  | Str s => quote s
  | Arr [] => "[]"
  | Arr items =>
      let stepback := indent in
      let indent := indent ++ gap in
      let separator := "," ++ JS.str JS.LF ++ indent in
      "[" ++ JS.str JS.LF ++ indent
          ++ JS.join separator (map (serialize indent) items)
          ++ JS.str JS.LF ++ stepback ++ "]"
  | Obj [] => "{}"
  | Obj props =>
      let stepback := indent in
      let indent := indent ++ gap in
      let separator := "," ++ JS.str JS.LF ++ indent in
      "{" ++ JS.str JS.LF ++ indent
          ++ JS.join separator
               (map (fun kv => quote (fst kv) ++ ": " ++ serialize indent (snd kv))
                    props)
          ++ JS.str JS.LF ++ stepback ++ "}"
  end.

(** The own enumerable properties that are defined. *)
Definition prop {A} (key : string) (f : A -> value) (o : option A)
  : list (string * value) :=
  match o with
  | Some x => [(key, f x)]
  | None => []
  end.

Definition of_InlineData (d : InlineData) : value :=
  Obj [("mimeType", Str (mimeType d)); ("data", Str (data d))].

Definition of_Part (p : Part) : value :=
  Obj (prop "text" Str (text p) ++ prop "inlineData" of_InlineData (inlineData p)).

Definition of_Content (c : Content) : value :=
  Obj (prop "parts" (fun ps => Arr (map of_Part ps)) (parts c)
       ++ prop "role" Str (role c)).

Definition of_SafetyAttributes (a : SafetyAttributes) : value :=
  Obj (prop "blockedCategories" (fun l => Arr (map Str l)) (blockedCategories a)).

Definition of_Candidate (c : Candidate) : value :=
  Obj (prop "content" of_Content (content c)
       ++ prop "safetyAttributes" of_SafetyAttributes (safetyAttributes c)).

Definition of_Response (r : Response) : value :=
  Obj (prop "candidates" (fun cs => Arr (map of_Candidate cs)) (candidates r)).

(** [JSON.stringify(response, null, 2)] *)
Definition stringify (r : Response) : string := serialize "" (of_Response r).

End JSON.

(** ** The component's state and the effects of a handler *)

(** The six [useState] cells. *)
Record State := {
  style : string;
  word : string;
  image : option Part;
  loading : bool;
  error : option string;
  debugInfo : list string
}.

(** The blob handed to [FileSaver.saveAs]: the bytes of the [Uint8Array] and
    the [type] option given to the [Blob] constructor. *)
Record Blob := { bytes : list N; blob_type : string }.

Inductive Effect :=
| SetImage (v : option Part)
| SetLoading (v : bool)
| SetError (v : option string)
| SetDebugInfo (v : list string)
| GenerateContent (model : string) (request : GenerateContentRequest)
| ConsoleError (label : string) (err : JS.Exception)
| SaveAs (blob : Blob) (name : string).

Definition apply_effect (st : State) (e : Effect) : State :=
  match e with
  | SetImage v =>
      {| style := style st; word := word st; image := v;
         loading := loading st; error := error st; debugInfo := debugInfo st |}
  | SetLoading v =>
      {| style := style st; word := word st; image := image st;
         loading := v; error := error st; debugInfo := debugInfo st |}
  | SetError v =>
      {| style := style st; word := word st; image := image st;
         loading := loading st; error := v; debugInfo := debugInfo st |}
  | SetDebugInfo v =>
      {| style := style st; word := word st; image := image st;
         loading := loading st; error := error st; debugInfo := v |}
  | GenerateContent _ _ | ConsoleError _ _ | SaveAs _ _ => st
  end.

Definition apply_effects (st : State) (l : list Effect) : State :=
  fold_left apply_effect l st.

(** A computation performs effects in order and then returns or throws. *)
Definition Eff (A : Type) : Type := list Effect * (JS.Exception + A).

Module Eff.

Definition ret {A} (a : A) : Eff A := ([], inr a).

Definition throw {A} (e : JS.Exception) : Eff A := ([], inl e).

Definition perform (e : Effect) : Eff unit := ([e], inr tt).

Definition bind {A B} (m : Eff A) (f : A -> Eff B) : Eff B :=
  match m with
  | (l, inl e) => (l, inl e)
  | (l, inr a) => let (l', r) := f a in ((l ++ l')%list, r)
  end.

(** [try { body } catch (err) { handler }] *)
Definition try_catch {A} (body : Eff A) (handler : JS.Exception -> Eff A) : Eff A :=
  match body with
  | (l, inl e) => let (l', r) := handler e in ((l ++ l')%list, r)
  | (l, inr a) => (l, inr a)
  end.

(** [try { body } finally { cleanup }]: the cleanup runs on both exits and
    an exception of the body is thrown again after it. *)
Definition try_finally {A} (body : Eff A) (cleanup : Eff unit) : Eff A :=
  let (l, r) := body in
  match cleanup with
  | (l', inl e) => ((l ++ l')%list, inl e)
  | (l', inr _) => ((l ++ l')%list, r)
  end.

(** The effects performed and the exception that escapes, if any. *)
Definition effects {A} (m : Eff A) : list Effect := fst m.

Definition uncaught {A} (m : Eff A) : option JS.Exception :=
  match snd m with
  | inl e => Some e
  | inr _ => None
  end.

End Eff.

Notation "x <- m ;; k" := (Eff.bind m (fun x => k))
  (at level 61, m at next level, right associativity).
Notation "m ;; k" := (Eff.bind m (fun _ => k))
  (at level 61, right associativity).

Definition setImage (v : option Part) : Eff unit := Eff.perform (SetImage v).
Definition setLoading (v : bool) : Eff unit := Eff.perform (SetLoading v).
Definition setError (v : option string) : Eff unit := Eff.perform (SetError v).
Definition setDebugInfo (v : list string) : Eff unit := Eff.perform (SetDebugInfo v).
Definition console_error (label : string) (err : JS.Exception) : Eff unit :=
  Eff.perform (ConsoleError label err).

(** The generation service: what [model.generateContent(request)] followed by
    [result.response] resolves to, or the exception it rejects with. *)
Definition Service : Type := string -> GenerateContentRequest -> JS.Exception + Response.

Definition generateContent (api : Service) (model : string)
    (request : GenerateContentRequest) : Eff Response :=
  ([GenerateContent model request], api model request).

(** ** generateImage *)

(** The template literal of the prompt. *)
Definition imagePrompt (word style : string) : string :=
  "Create a high-quality, clear image of a " ++ JS.str JS.dquote ++ word
    ++ JS.str JS.dquote ++ " in the style of " ++ style
    ++ ". The object should be the central focus of the image, and visually styled according to the description: "
    ++ style ++ ". Make it visually appealing and artistic.".

Definition prompt_request (prompt : string) : GenerateContentRequest :=
  {| contents :=
       [ {| parts := Some [ {| text := Some prompt; inlineData := None |} ];
            role := Some "user" |} ];
     generationConfig := {| responseModalities := ["Text"; "Image"] |} |}.

(** [response.candidates?.[0]?.safetyAttributes?.blockedCategories?.includes('IMAGE_SAFETY')] *)
Definition safety_blocked (response : Response) : bool :=
  JS.truthy_opt
    (candidates response ?. (fun cs => nth_error cs 0)
       ?. safetyAttributes ?. blockedCategories
       ?. (fun l => Some (JS.includes l "IMAGE_SAFETY"))).

(** The callback of [find]: [part => part.inlineData], by truthiness. *)
Definition has_inlineData (part : Part) : bool :=
  match inlineData part with
  | Some _ => true
  | None => false
  end.

(** [response.candidates?.[0]?.content?.parts?.find(part => part.inlineData)] *)
Definition find_imagePart (response : Response) : option Part :=
  candidates response ?. (fun cs => nth_error cs 0)
    ?. content ?. parts ?. (fun ps => find has_inlineData ps).

Definition msg_missing_fields : string := "Please enter both a word and style".
Definition msg_missing_key : string :=
  "API key is missing. Please add your Gemini API key to the .env file.".
Definition msg_blocked : string :=
  "The image generation was blocked due to safety concerns. Please try a different prompt.".
Definition msg_no_image : string :=
  "Failed to generate an image. The API did not return image data.".

(** [word], [style] and [debugInfo] are the values of the render that
    created the handler: the cells of [s].  [logs] is a local array;
    [setDebugInfo(logs)] hands the array itself to the cell, and every later
    setter call of the handler stores either a copy [[...logs]] taken after
    the pushes or an array built from [debugInfo], so each call is recorded
    with the elements it holds when it is made. *)
Definition generateImage (API_KEY : string) (api : Service) (s : State) : Eff unit :=
  if negb (JS.truthy (word s)) || negb (JS.truthy (style s)) then
    setError (Some msg_missing_fields)
  else if negb (JS.truthy API_KEY) then
    setError (Some msg_missing_key)
  else
    setLoading true ;;
    setError None ;;
    setDebugInfo [] ;;
    Eff.try_finally
      (Eff.try_catch
         (let imagePrompt := imagePrompt (word s) (style s) in
          let logs := ["Sending prompt: " ++ imagePrompt] in
          setDebugInfo logs ;;
          response <- generateContent api "gemini-2.0-flash-exp"
                        (prompt_request imagePrompt) ;;
          let logs := JS.push logs "Received response from Gemini API" in
          setDebugInfo logs ;;
          let logs := JS.push logs "Processing response" in
          if safety_blocked response then
            let logs := JS.push logs "Image was blocked due to safety concerns" in
            setError (Some msg_blocked) ;;
            setDebugInfo logs
          else
            let imagePart := find_imagePart response in
            match imagePart ?. inlineData with
            | Some inline =>
                let logs := JS.push logs "Successfully extracted image data" in
                setImage imagePart ;;
                let logs := JS.push logs ("Image MIME type: " ++ mimeType inline) in
                setDebugInfo logs
            | None =>
                let logs := JS.push logs "No image data found in the response" in
                setError (Some msg_no_image) ;;
                let logs := JS.push logs ("API Response: " ++ JSON.stringify response) in
                setDebugInfo logs
            end)
         (fun err =>
            console_error "Error generating image:" err ;;
            setError (Some ("Failed to generate image: "
                              ++ JS.message_or err "Unknown error")) ;;
            setDebugInfo (JS.push (debugInfo s)
                            ("Error: " ++ JS.message_or err "Unknown error"))))
      (setLoading false).

(** The cells after a handler has run. *)
Definition after (s : State) (m : Eff unit) : State :=
  apply_effects s (Eff.effects m).

(** ** atob

    The platform's base64 decoder, after the forgiving-base64 decode of the
    WHATWG Infra standard: ASCII whitespace is dropped, one or two padding
    characters are dropped when the length is a multiple of four, a length
    that leaves remainder one or a character outside the alphabet is an
    [InvalidCharacterError], and the bits left over at the end are
    discarded. *)

Module Base64.

Definition is_whitespace (c : ascii) : bool :=
  let n := N_of_ascii c in
  ((n =? 9) || (n =? 10) || (n =? 12) || (n =? 13) || (n =? 32))%N.

Definition is_padding (c : ascii) : bool := (N_of_ascii c =? 61)%N.

(** The value of a character of the alphabet. *)
Definition sextet (c : ascii) : option N :=
  let n := N_of_ascii c in
  if ((65 <=? n) && (n <=? 90))%N then Some (n - 65)%N
  else if ((97 <=? n) && (n <=? 122))%N then Some (n - 71)%N
  else if ((48 <=? n) && (n <=? 57))%N then Some (n + 4)%N
  else if (n =? 43)%N then Some 62%N
  else if (n =? 47)%N then Some 63%N
  else None.

Fixpoint sextets (l : list ascii) : option (list N) :=
  match l with
  | [] => Some []
  | c :: rest =>
      match sextet c, sextets rest with
      | Some v, Some vs => Some (v :: vs)
      | _, _ => None
      end
  end.

(** One or two trailing padding characters are removed, on the reversed
    input. *)
Definition strip_padding_rev (r : list ascii) : list ascii :=
  match r with
  | p :: q :: rest =>
      if is_padding p then (if is_padding q then rest else q :: rest) else r
  | [p] => if is_padding p then [] else r
  | [] => []
  end.

Definition strip_padding (l : list ascii) : list ascii :=
  if Nat.eqb (Nat.modulo (length l) 4) 0 then rev (strip_padding_rev (rev l)) else l.

Fixpoint decode (l : list N) : list N :=
  match l with
  | a :: b :: c :: d :: rest =>
      let n := (a * 262144 + b * 4096 + c * 64 + d)%N in
      (n / 65536)%N :: ((n / 256) mod 256)%N :: (n mod 256)%N :: decode rest
  | [a; b; c] =>
      let n := ((a * 4096 + b * 64 + c) / 4)%N in
      [(n / 256)%N; (n mod 256)%N]
  | [a; b] => [((a * 64 + b) / 16)%N]
  | _ => []
  end.

(** The message is the browser's; nothing below depends on its text. *)
Definition InvalidCharacterError : JS.Exception :=
  {| JS.message := Some "The string to be decoded is not correctly encoded." |}.

Definition atob (data : string) : JS.Exception + string :=
  let l := filter (fun c => negb (is_whitespace c)) (list_ascii_of_string data) in
  let l := strip_padding l in
  if Nat.eqb (Nat.modulo (length l) 4) 1 then inl InvalidCharacterError
  else
    match sextets l with
    | None => inl InvalidCharacterError
    | Some vs => inr (string_of_list_ascii (map ascii_of_N (decode vs)))
    end.

(** [btoa], the encoder that [atob] undoes.  The component does not call
    it: it is what writes the base64 text of an inline image. *)
Definition alphabet_char (v : N) : ascii :=
  if (v <? 26)%N then ascii_of_N (65 + v)
  else if (v <? 52)%N then ascii_of_N (71 + v)
  else if (v <? 62)%N then ascii_of_N (v - 4)
  else if (v =? 62)%N then "+"%char
  else "/"%char.

Fixpoint encode (l : list N) : list N :=
  match l with
  | a :: b :: c :: rest =>
      let n := (a * 65536 + b * 256 + c)%N in
      (n / 262144)%N :: ((n / 4096) mod 64)%N :: ((n / 64) mod 64)%N
        :: (n mod 64)%N :: encode rest
  | [a; b] =>
      let n := ((a * 256 + b) * 4)%N in
      [(n / 4096)%N; ((n / 64) mod 64)%N; (n mod 64)%N]
  | [a] =>
      let n := (a * 16)%N in
      [(n / 64)%N; (n mod 64)%N]
  | [] => []
  end.

Definition padding (bytes : nat) : list ascii :=
  match Nat.modulo bytes 3 with
  | 1 => ["="%char; "="%char]
  | 2 => ["="%char]
  | _ => []
  end.

Definition btoa (s : string) : string :=
  let codes := map N_of_ascii (list_ascii_of_string s) in
  string_of_list_ascii (map alphabet_char (encode codes) ++ padding (length codes)).

End Base64.

Definition atob (data : string) : Eff string := ([], Base64.atob data).

(** ** saveImage *)

(** [s.charCodeAt(i)]; [None] is NaN. *)
Definition charCodeAt (s : string) (i : nat) : option N :=
  option_map N_of_ascii (String.get i s).

(** [a[i] = x] on an array whose missing elements are holes: past the end
    the array grows. *)
Fixpoint array_set {A} (a : list (option A)) (i : nat) (x : option A)
  : list (option A) :=
  match i, a with
  | O, [] => [x]
  | O, _ :: rest => x :: rest
  | S i', [] => None :: array_set [] i' x
  | S i', h :: rest => h :: array_set rest i' x
  end.

(** [new Array(n)] *)
Definition new_Array {A} (n : nat) : list (option A) := repeat None n.

(** [for (let i = i0; i < i0 + count; i++) byteNumbers[i] = byteCharacters.charCodeAt(i)] *)
Fixpoint fill_byteNumbers (byteCharacters : string) (count i : nat)
    (byteNumbers : list (option N)) : list (option N) :=
  match count with
  | O => byteNumbers
  | S count' =>
      fill_byteNumbers byteCharacters count' (S i)
        (array_set byteNumbers i (charCodeAt byteCharacters i))
  end.

(** [new Uint8Array(numbers)]: an element is taken modulo 256, a hole or NaN
    becomes 0. *)
Definition Uint8Array (numbers : list (option N)) : list N :=
  map (fun x => match x with Some n => (n mod 256)%N | None => 0%N end) numbers.

(** [s.split(sep)] for a separator of one character. *)
Fixpoint split (sep : ascii) (s : string) : list string :=
  match s with
  | EmptyString => [""]
  | String c rest =>
      if Ascii.eqb c sep then "" :: split sep rest
      else
        match split sep rest with
        | h :: t => String c h :: t
        | [] => [JS.str c]
        end
  end.

(** [mimeType.split('/')[1] || 'png'] *)
Definition extension_of (mimeType : string) : string :=
  match nth_error (split "/" mimeType) 1 with
  | Some sub => if JS.truthy sub then sub else "png"
  | None => "png"
  end.

Definition saveAs (blob : Blob) (name : string) : Eff unit :=
  Eff.perform (SaveAs blob name).

Definition saveImage (s : State) : Eff unit :=
  match image s with
  | None => Eff.ret tt
  | Some image =>
      if negb (JS.truthy (word s)) then Eff.ret tt
      else
        Eff.try_catch
          (match inlineData image with
           | Some inline =>
               let mimeType := mimeType inline in
               let data := data inline in
               byteCharacters <- atob data ;;
               let byteNumbers := new_Array (String.length byteCharacters) in
               let byteNumbers :=
                 fill_byteNumbers byteCharacters (String.length byteCharacters) 0
                   byteNumbers in
               let byteArray := Uint8Array byteNumbers in
               let blob := {| bytes := byteArray; blob_type := mimeType |} in
               let extension := extension_of mimeType in
               saveAs blob (word s ++ "." ++ extension)
           | None => setError (Some "No valid image data to save")
           end)
          (fun err =>
             console_error "Error saving image:" err ;;
             setError (Some ("Failed to save image: "
                               ++ JS.message_or err "Unknown error")))
  end.

(** * Observations *)

(** The calls to the generation service among the effects of a handler, and
    the effects that come before the first of them. *)
Definition calls (l : list Effect) : list (string * GenerateContentRequest) :=
  flat_map (fun e => match e with
                     | GenerateContent m r => [(m, r)]
                     | _ => []
                     end) l.

Fixpoint before_call (l : list Effect) : list Effect :=
  match l with
  | [] => []
  | GenerateContent _ _ :: _ => []
  | e :: rest => e :: before_call rest
  end.

(** The model, the request and the first trace line of a request made from
    the cells [s], and the effects up to the call. *)
Definition model_name : string := "gemini-2.0-flash-exp".

Definition sent_request (s : State) : GenerateContentRequest :=
  prompt_request (imagePrompt (word s) (style s)).

Definition line_sending (s : State) : string :=
  "Sending prompt: " ++ imagePrompt (word s) (style s).

Definition prefix_effects (s : State) : list Effect :=
  [ SetLoading true; SetError None; SetDebugInfo [];
    SetDebugInfo [line_sending s];
    GenerateContent model_name (sent_request s) ].

(** The first candidate of the response declares the image-safety marker
    among its blocked categories. *)
Definition declares_image_safety_block (r : Response) : Prop :=
  exists cand rest attrs cats,
    candidates r = Some (cand :: rest) /\
    safetyAttributes cand = Some attrs /\
    blockedCategories attrs = Some cats /\
    In "IMAGE_SAFETY" cats.

(** [p] is the first content part of the first candidate that carries
    inline data, and [d] is that data. *)
Definition first_inline_part (r : Response) (p : Part) (d : InlineData) : Prop :=
  exists cand rest c before behind,
    candidates r = Some (cand :: rest) /\
    content cand = Some c /\
    parts c = Some (before ++ p :: behind)%list /\
    Forall (fun q => inlineData q = None) before /\
    inlineData p = Some d.

(** No content part of the first candidate carries inline data. *)
Definition no_inline_part (r : Response) : Prop :=
  forall cand rest c ps p,
    candidates r = Some (cand :: rest) ->
    content cand = Some c ->
    parts c = Some ps ->
    In p ps ->
    inlineData p = None.

(** The character codes of a binary string: the bytes it stands for. *)
Definition char_codes (s : string) : list N :=
  map N_of_ascii (list_ascii_of_string s).

Definition no_slash (s : string) : Prop := ~ In "/"%char (list_ascii_of_string s).

(** The save request for the inline data [inline] under the name [word]. *)
Definition save_request (word : string) (inline : InlineData) (decoded : string)
  : Effect :=
  SaveAs {| bytes := char_codes decoded; blob_type := mimeType inline |}
         (word ++ "." ++ extension_of (mimeType inline)).

(** ** The wording of the specification

    Two notions that the specification uses and the component does not: a
    field that is blank after trimming, and the prompt template written with
    single quotes around the subject.  They are here to be compared with
    what the handler does. *)

Definition whitespace_only (s : string) : bool :=
  forallb (fun c => let n := N_of_ascii c in
                    ((9 <=? n) && (n <=? 13) || (n =? 32))%N)
          (list_ascii_of_string s).

Definition claimed_prompt (subject style : string) : string :=
  "Create a high-quality, clear image of a '" ++ subject
    ++ "' in the style of " ++ style
    ++ ". The object should be the central focus of the image, and visually styled according to the description: "
    ++ style ++ ". Make it visually appealing and artistic.".

(** The number of places of [hay] at which [needle] starts. *)
Fixpoint occurrences (needle hay : string) : nat :=
  match hay with
  | EmptyString => 0
  | String _ rest =>
      (if String.prefix needle hay then 1 else 0)%nat + occurrences needle rest
  end.

(** ** The base64 alphabet *)

(** The test that a sextet is written as a character that reads back as the
    same sextet and is neither whitespace nor padding. *)
Definition alphabet_check (v : N) : bool :=
  match Base64.sextet (Base64.alphabet_char v) with
  | Some w => (w =? v)%N
  | None => false
  end
  && negb (Base64.is_whitespace (Base64.alphabet_char v))
  && negb (Base64.is_padding (Base64.alphabet_char v)).

Definition byte_sized (l : list N) : Prop := Forall (fun b => (b < 256)%N) l.

(** The characters of the encoder's output before the padding. *)
Definition encoded_body (l : list N) : list ascii :=
  map Base64.alphabet_char (Base64.encode l).

(** ** Sample inputs *)

Definition cells (word style : string) (image : option Part)
    (error : option string) (debugInfo : list string) : State :=
  {| style := style; word := word; image := image;
     loading := false; error := error; debugInfo := debugInfo |}.

Definition png_inline : InlineData :=
  {| mimeType := "image/png"; data := "iVBORw0KGgo=" |}.

Definition jpeg_abc_inline : InlineData :=
  {| mimeType := "image/jpeg"; data := "YWJj" |}.

Definition malformed_inline : InlineData :=
  {| mimeType := "image/png"; data := "not base64!" |}.

Definition inline_part (d : InlineData) : Part :=
  {| text := None; inlineData := Some d |}.

Definition text_part : Part :=
  {| text := Some "Here is a fox."; inlineData := None |}.

Definition candidate_of (ps : list Part) (blocked : option (list string)) : Candidate :=
  {| content := Some {| parts := Some ps; role := Some "model" |};
     safetyAttributes := option_map (fun l => {| blockedCategories := Some l |}) blocked |}.

Definition image_response : Response :=
  {| candidates := Some [candidate_of [text_part; inline_part png_inline] None] |}.

Definition text_response : Response :=
  {| candidates := Some [candidate_of [text_part] None] |}.

Definition blocked_response : Response :=
  {| candidates :=
       Some [candidate_of [text_part; inline_part png_inline] (Some ["IMAGE_SAFETY"])] |}.

Definition answer (r : Response) : Service := fun _ _ => inr r.

Definition reject (err : JS.Exception) : Service := fun _ _ => inl err.

Definition network_error : JS.Exception := {| JS.message := Some "Failed to fetch" |}.

Definition fox_state : State := cells "fox" "watercolor" None None [].

Definition blank_word_state : State := cells " " "watercolor" None None [].

Definition empty_word_state : State :=
  cells "" "watercolor" (Some (inline_part jpeg_abc_inline)) None [].

Definition state_with_image : State :=
  cells "fox" "watercolor" (Some (inline_part png_inline)) (Some msg_blocked)
        ["earlier line"].

Definition cat_state : State :=
  cells "cat" "watercolor" (Some (inline_part jpeg_abc_inline)) None [].

Definition malformed_state : State :=
  cells "cat" "watercolor" (Some (inline_part malformed_inline)) None [].

(** * The rendering and the events

    What the component returns for the cells [s], as far as it depends on
    them, and the events its elements accept. *)

(** The initial values of the [useState] cells. *)
Definition initial_state : State :=
  {| style := ""; word := ""; image := None;
     loading := false; error := None; debugInfo := [] |}.

(** [import.meta.env.VITE_GEMINI_API_KEY || ""], for a variable that is
    undefined or set. *)
Definition API_KEY_of (env : option string) : string :=
  match env with
  | Some key => if JS.truthy key then key else ""
  | None => ""
  end.

Record ImgElement := { src : string; alt : string }.

Record View := {
  word_value : string;
  style_value : string;
  generate_disabled : bool;
  generate_label : string;
  save_disabled : bool;
  error_box : option string;
  generated_image : option ImgElement;
  debug_panel : option string
}.

(** The returned tree.  [{x && <e/>}] renders the element when [x] is
    truthy. *)
Definition render (s : State) : View :=
  {| word_value := word s;
     style_value := style s;
     generate_disabled :=
       loading s || negb (JS.truthy (word s)) || negb (JS.truthy (style s));
     generate_label := if loading s then "Generating..." else "Generate Image";
     save_disabled := match image s with Some _ => false | None => true end;
     error_box :=
       match error s with
       | Some e => if JS.truthy e then Some e else None
       | None => None
       end;
     generated_image :=
       match image s ?. inlineData with
       | Some inline =>
           Some {| src := "data:" ++ mimeType inline ++ ";base64," ++ data inline;
                   alt := "AI generated image of " ++ word s |}
       | None => None
       end;
     debug_panel :=
       if Nat.ltb 0 (length (debugInfo s))
       then Some (JS.join (JS.str JS.LF) (debugInfo s))
       else None |}.

(** [setWord(e.target.value)] and [setStyle(e.target.value)] *)
Definition setWord (value : string) (s : State) : State :=
  {| style := style s; word := value; image := image s;
     loading := loading s; error := error s; debugInfo := debugInfo s |}.

Definition setStyle (value : string) (s : State) : State :=
  {| style := value; word := word s; image := image s;
     loading := loading s; error := error s; debugInfo := debugInfo s |}.

(** The events of the two inputs and the two buttons.  A click on the first
    button comes with what the service will answer to the request. *)
Inductive Event :=
| ChangeWord (value : string)
| ChangeStyle (value : string)
| ClickGenerate (api : Service)
| ClickSave.

(** One event, handled to its end: the cells after it and the effects of
    the handler.  A disabled button takes no click. *)
Definition dispatch (API_KEY : string) (s : State) (e : Event) : State * list Effect :=
  match e with
  | ChangeWord value => (setWord value s, [])
  | ChangeStyle value => (setStyle value s, [])
  | ClickGenerate api =>
      if generate_disabled (render s) then (s, [])
      else let m := generateImage API_KEY api s in (after s m, Eff.effects m)
  | ClickSave =>
      if save_disabled (render s) then (s, [])
      else let m := saveImage s in (after s m, Eff.effects m)
  end.

Fixpoint session (API_KEY : string) (s : State) (events : list Event)
  : State * list Effect :=
  match events with
  | [] => (s, [])
  | e :: rest =>
      let (s1, l1) := dispatch API_KEY s e in
      let (s2, l2) := session API_KEY s1 rest in
      (s2, (l1 ++ l2)%list)
  end.

(** The save requests among the effects. *)
Definition saves (l : list Effect) : list (Blob * string) :=
  flat_map (fun e => match e with
                     | SaveAs blob name => [(blob, name)]
                     | _ => []
                     end) l.

(** The stored image, when there is one, carries inline data. *)
Definition image_has_data (s : State) : Prop :=
  forall p, image s = Some p -> inlineData p <> None.

(** The suffixes of the four runs of [generateImage]. *)
Definition rejected_suffix (s : State) (err : JS.Exception) : list Effect :=
  [ ConsoleError "Error generating image:" err;
    SetError (Some ("Failed to generate image: "
                      ++ JS.message_or err "Unknown error"));
    SetDebugInfo (JS.push (debugInfo s)
                    ("Error: " ++ JS.message_or err "Unknown error"));
    SetLoading false ].

Definition blocked_suffix (s : State) : list Effect :=
  [ SetDebugInfo [line_sending s; "Received response from Gemini API"];
    SetError (Some msg_blocked);
    SetDebugInfo [line_sending s; "Received response from Gemini API";
                  "Processing response";
                  "Image was blocked due to safety concerns"];
    SetLoading false ].

Definition image_suffix (s : State) (p : Part) (inline : InlineData) : list Effect :=
  [ SetDebugInfo [line_sending s; "Received response from Gemini API"];
    SetImage (Some p);
    SetDebugInfo [line_sending s; "Received response from Gemini API";
                  "Processing response";
                  "Successfully extracted image data";
                  "Image MIME type: " ++ mimeType inline];
    SetLoading false ].

Definition no_image_suffix (s : State) (response : Response) : list Effect :=
  [ SetDebugInfo [line_sending s; "Received response from Gemini API"];
    SetError (Some msg_no_image);
    SetDebugInfo [line_sending s; "Received response from Gemini API";
                  "Processing response";
                  "No image data found in the response";
                  "API Response: " ++ JSON.stringify response];
    SetLoading false ].

(** An effect that is neither a call to the service nor a save request. *)
Definition quiet (e : Effect) : Prop :=
  match e with
  | GenerateContent _ _ | SaveAs _ _ => False
  | _ => True
  end.

(** The clicks on the two buttons among the events. *)
Definition generate_clicks (events : list Event) : nat :=
  length (filter (fun e => match e with ClickGenerate _ => true | _ => false end)
                 events).

Definition save_clicks (events : list Event) : nat :=
  length (filter (fun e => match e with ClickSave => true | _ => false end)
                 events).

(** A session used as a sample: a request that is answered with an image,
    a save, and a request that the service rejects. *)
Definition sample_events : list Event :=
  [ ChangeWord "fox"; ChangeStyle "watercolor";
    ClickGenerate (answer image_response); ClickSave;
    ClickGenerate (reject network_error) ].

(** * Properties *)

(** ** Truthiness and the optional chains *)

Lemma truthy_nonempty (s : string) : s <> "" -> JS.truthy s = true.
Proof.
  intros H. unfold JS.truthy.
  destruct (String.eqb_spec s ""); [contradiction | reflexivity].
Qed.

Lemma message_or_absent (err : JS.Exception) (d : string) :
  JS.message err = None \/ JS.message err = Some "" -> JS.message_or err d = d.
Proof.
  unfold JS.message_or. intros [H|H]; rewrite H; reflexivity.
Qed.

Lemma message_or_present (err : JS.Exception) (d m : string) :
  JS.message err = Some m -> m <> "" -> JS.message_or err d = m.
Proof.
  unfold JS.message_or. intros H Hm.
  rewrite H, (truthy_nonempty _ Hm). reflexivity.
Qed.

Lemma includes_In (l : list string) (x : string) :
  JS.includes l x = true <-> In x l.
Proof.
  unfold JS.includes. rewrite existsb_exists. split.
  - intros [y [Hy E]]. apply String.eqb_eq in E. subst. exact Hy.
  - intros H. exists x. split; [exact H | apply String.eqb_refl].
Qed.

Lemma safety_blocked_iff (r : Response) :
  safety_blocked r = true <-> declares_image_safety_block r.
Proof.
  unfold safety_blocked, declares_image_safety_block. split.
  - destruct (candidates r) as [[|cand rest]|] eqn:Ec; simpl; try discriminate.
    destruct (safetyAttributes cand) as [attrs|] eqn:Ea; simpl; try discriminate.
    destruct (blockedCategories attrs) as [cats|] eqn:Eb; simpl; try discriminate.
    intros H. apply includes_In in H.
    exists cand, rest, attrs, cats. auto.
  - intros (cand & rest & attrs & cats & Ec & Ea & Eb & Hin).
    rewrite Ec. simpl. rewrite Ea. simpl. rewrite Eb. simpl.
    apply includes_In. exact Hin.
Qed.

Lemma not_blocked (r : Response) :
  ~ declares_image_safety_block r -> safety_blocked r = false.
Proof.
  intros H. destruct (safety_blocked r) eqn:E; [|reflexivity].
  apply safety_blocked_iff in E. contradiction.
Qed.

Lemma find_skips (before : list Part) (p : Part) (behind : list Part) :
  Forall (fun q => inlineData q = None) before ->
  has_inlineData p = true ->
  find has_inlineData (before ++ p :: behind) = Some p.
Proof.
  induction 1 as [|q before Hq _ IH]; intros Hp; simpl.
  - rewrite Hp. reflexivity.
  - unfold has_inlineData at 1. rewrite Hq. apply IH. exact Hp.
Qed.

Lemma find_none (ps : list Part) :
  (forall p, In p ps -> inlineData p = None) ->
  find has_inlineData ps = None.
Proof.
  induction ps as [|q ps IH]; intros H; simpl; [reflexivity|].
  unfold has_inlineData at 1. rewrite (H q (or_introl eq_refl)).
  apply IH. intros p Hp. apply H. right. exact Hp.
Qed.

Lemma find_imagePart_first (r : Response) (p : Part) (d : InlineData) :
  first_inline_part r p d -> find_imagePart r = Some p.
Proof.
  intros (cand & rest & c & before & behind & Ec & Eco & Ep & Hb & Hp).
  unfold find_imagePart. rewrite Ec. simpl. rewrite Eco. simpl. rewrite Ep. simpl.
  apply find_skips; [exact Hb|]. unfold has_inlineData. rewrite Hp. reflexivity.
Qed.

Lemma find_imagePart_none (r : Response) :
  no_inline_part r -> find_imagePart r = None.
Proof.
  intros H. unfold find_imagePart.
  destruct (candidates r) as [[|cand rest]|] eqn:Ec; simpl; try reflexivity.
  destruct (content cand) as [c|] eqn:Eco; simpl; try reflexivity.
  destruct (parts c) as [ps|] eqn:Ep; simpl; try reflexivity.
  apply find_none. intros p Hp. exact (H cand rest c ps p Ec Eco Ep Hp).
Qed.

(** ** The platform functions on small inputs *)

Example atob_abc : Base64.atob "YWJj" = inr "abc".
Proof. reflexivity. Qed.

Example atob_padding :
  Base64.atob "YWI=" = inr "ab" /\ Base64.atob "YQ==" = inr "a"
  /\ Base64.atob "YQ" = inr "a".
Proof. repeat split. Qed.

Example btoa_samples :
  map Base64.btoa [""; "a"; "ab"; "abc"; "abcd"]
  = [""; "YQ=="; "YWI="; "YWJj"; "YWJjZA=="].
Proof. reflexivity. Qed.

Example atob_whitespace : Base64.atob "YW Jj" = inr "abc".
Proof. reflexivity. Qed.

Example atob_malformed :
  Base64.atob "not base64!" = inl Base64.InvalidCharacterError
  /\ Base64.atob "Y" = inl Base64.InvalidCharacterError
  /\ Base64.atob "YQ=" = inl Base64.InvalidCharacterError.
Proof. repeat split. Qed.

Example extension_of_samples :
  map extension_of ["image/jpeg"; "image/svg+xml"; "image"; "image/"; ""]
  = ["jpeg"; "svg+xml"; "png"; "png"; "png"].
Proof. reflexivity. Qed.

Example stringify_no_candidates :
  JSON.stringify {| candidates := None |} = "{}"
  /\ JSON.stringify {| candidates := Some [] |}
     = "{" ++ JS.str JS.LF ++ "  " ++ JSON.quote "candidates" ++ ": []"
           ++ JS.str JS.LF ++ "}".
Proof. split; reflexivity. Qed.

(** ** The sample responses *)

Lemma blocked_response_blocked : declares_image_safety_block blocked_response.
Proof.
  exists (candidate_of [text_part; inline_part png_inline] (Some ["IMAGE_SAFETY"])),
    [], {| blockedCategories := Some ["IMAGE_SAFETY"] |}, ["IMAGE_SAFETY"].
  repeat split. left. reflexivity.
Qed.

Lemma image_response_not_blocked : ~ declares_image_safety_block image_response.
Proof.
  intros (cand & rest & attrs & cats & Ec & Ea & _).
  injection Ec as <- _. discriminate Ea.
Qed.

Lemma image_response_first_part :
  first_inline_part image_response (inline_part png_inline) png_inline.
Proof.
  exists (candidate_of [text_part; inline_part png_inline] None), [],
    {| parts := Some [text_part; inline_part png_inline]; role := Some "model" |},
    [text_part], [].
  repeat split. constructor; [reflexivity | constructor].
Qed.

Lemma text_response_not_blocked : ~ declares_image_safety_block text_response.
Proof.
  intros (cand & rest & attrs & cats & Ec & Ea & _).
  injection Ec as <- _. discriminate Ea.
Qed.

Lemma text_response_no_inline_part : no_inline_part text_response.
Proof.
  intros cand rest c ps p Ec Eco Ep Hin.
  injection Ec as <- _. injection Eco as <-. injection Ep as <-.
  destruct Hin as [<-|[]]. reflexivity.
Qed.

(** ** The four runs of generateImage

    Once the three guards are passed the handler performs a fixed prefix of
    effects, the last of which is the call, and a suffix decided by what the
    service answers. *)

Ltac pass_guards Hw Hs Hk Hapi :=
  unfold generateImage, generateContent;
  rewrite (truthy_nonempty _ Hw), (truthy_nonempty _ Hs), (truthy_nonempty _ Hk);
  unfold model_name, sent_request in Hapi; rewrite Hapi;
  cbn [negb orb]; unfold Eff.try_finally, Eff.try_catch.

Ltac no_call_no_clear :=
  split; [reflexivity | simpl; intuition discriminate].

Section Runs.

Variables (API_KEY : string) (api : Service) (s : State).
Hypothesis Hword : word s <> "".
Hypothesis Hstyle : style s <> "".
Hypothesis Hkey : API_KEY <> "".

Lemma run_rejected (err : JS.Exception) :
  api model_name (sent_request s) = inl err ->
  generateImage API_KEY api s =
    (app (prefix_effects s)
      [ ConsoleError "Error generating image:" err;
        SetError (Some ("Failed to generate image: "
                          ++ JS.message_or err "Unknown error"));
        SetDebugInfo (JS.push (debugInfo s)
                        ("Error: " ++ JS.message_or err "Unknown error"));
        SetLoading false ],
     inr tt).
Proof.
  intros Hapi. pass_guards Hword Hstyle Hkey Hapi. reflexivity.
Qed.

Lemma run_blocked (response : Response) :
  api model_name (sent_request s) = inr response ->
  safety_blocked response = true ->
  generateImage API_KEY api s =
    (app (prefix_effects s)
      [ SetDebugInfo [line_sending s; "Received response from Gemini API"];
        SetError (Some msg_blocked);
        SetDebugInfo [line_sending s; "Received response from Gemini API";
                      "Processing response";
                      "Image was blocked due to safety concerns"];
        SetLoading false ],
     inr tt).
Proof.
  intros Hapi Hb. pass_guards Hword Hstyle Hkey Hapi.
  cbn -[imagePrompt String.append]. rewrite Hb. reflexivity.
Qed.

Lemma run_image (response : Response) (p : Part) (inline : InlineData) :
  api model_name (sent_request s) = inr response ->
  safety_blocked response = false ->
  find_imagePart response = Some p ->
  inlineData p = Some inline ->
  generateImage API_KEY api s =
    (app (prefix_effects s)
      [ SetDebugInfo [line_sending s; "Received response from Gemini API"];
        SetImage (Some p);
        SetDebugInfo [line_sending s; "Received response from Gemini API";
                      "Processing response";
                      "Successfully extracted image data";
                      "Image MIME type: " ++ mimeType inline];
        SetLoading false ],
     inr tt).
Proof.
  intros Hapi Hb Hf Hi. pass_guards Hword Hstyle Hkey Hapi.
  cbn -[imagePrompt String.append]. rewrite Hb, Hf.
  cbn -[imagePrompt String.append]. rewrite Hi. reflexivity.
Qed.

Lemma run_no_image (response : Response) :
  api model_name (sent_request s) = inr response ->
  safety_blocked response = false ->
  find_imagePart response ?. inlineData = None ->
  generateImage API_KEY api s =
    (app (prefix_effects s)
      [ SetDebugInfo [line_sending s; "Received response from Gemini API"];
        SetError (Some msg_no_image);
        SetDebugInfo [line_sending s; "Received response from Gemini API";
                      "Processing response";
                      "No image data found in the response";
                      "API Response: " ++ JSON.stringify response];
        SetLoading false ],
     inr tt).
Proof.
  intros Hapi Hb Hf. pass_guards Hword Hstyle Hkey Hapi.
  cbn -[imagePrompt String.append JSON.stringify find_imagePart JS.chain].
  rewrite Hb, Hf. reflexivity.
Qed.

(** Whatever the service answers, the run is the prefix followed by effects
    among which there is no call and no [setImage(null)], and nothing
    escapes it. *)
Lemma run_cases :
  exists suffix,
    generateImage API_KEY api s = (app (prefix_effects s) suffix, inr tt)
    /\ calls suffix = []
    /\ ~ In (SetImage None) suffix.
Proof.
  destruct (api model_name (sent_request s)) as [err|response] eqn:Hapi.
  - eexists. split; [apply (run_rejected _ Hapi) | no_call_no_clear].
  - destruct (safety_blocked response) eqn:Hb.
    + eexists. split; [apply (run_blocked _ Hapi Hb) | no_call_no_clear].
    + destruct (find_imagePart response ?. inlineData) as [inline|] eqn:Hf.
      * destruct (find_imagePart response) as [p|] eqn:Hp; [|discriminate].
        simpl in Hf.
        eexists. split; [apply (run_image _ _ _ Hapi Hb Hp Hf) | no_call_no_clear].
      * eexists. split; [apply (run_no_image _ Hapi Hb Hf) | no_call_no_clear].
Qed.

End Runs.

(** ** The bytes of the blob *)

Lemma length_list_ascii (s : string) :
  String.length s = length (list_ascii_of_string s).
Proof.
  induction s as [|c s IH]; simpl; [reflexivity | now rewrite IH].
Qed.

Lemma get_nth_error (s : string) (i : nat) :
  String.get i s = nth_error (list_ascii_of_string s) i.
Proof.
  revert i. induction s as [|c s IH]; intros [|i]; simpl; auto.
Qed.

Lemma array_set_middle {A} (front : list (option A)) (old x : option A)
    (back : list (option A)) :
  array_set (front ++ old :: back) (length front) x = (front ++ x :: back)%list.
Proof.
  induction front as [|h front IH]; simpl; [reflexivity | now rewrite IH].
Qed.

(** The loop invariant: the codes of the characters seen so far, then the
    holes that are left. *)
Lemma fill_byteNumbers_inv (s : string) (todo done : list ascii) :
  list_ascii_of_string s = (done ++ todo)%list ->
  fill_byteNumbers s (length todo) (length done)
    (map (fun c => Some (N_of_ascii c)) done ++ repeat None (length todo))
  = map (fun c => Some (N_of_ascii c)) (done ++ todo).
Proof.
  revert done. induction todo as [|c todo IH]; intros done Hs; simpl.
  - now rewrite !app_nil_r.
  - assert (Hc : charCodeAt s (length done) = Some (N_of_ascii c)).
    { unfold charCodeAt. rewrite get_nth_error, Hs.
      rewrite nth_error_app2 by lia. now rewrite Nat.sub_diag. }
    rewrite Hc.
    pose proof (array_set_middle (map (fun c => Some (N_of_ascii c)) done) None
                  (Some (N_of_ascii c)) (repeat None (length todo))) as Hset.
    rewrite length_map in Hset. rewrite Hset. clear Hset.
    specialize (IH (done ++ [c])%list).
    rewrite <- app_assoc in IH. simpl in IH. specialize (IH Hs).
    rewrite length_app, map_app in IH. simpl in IH.
    rewrite Nat.add_1_r, <- app_assoc in IH. simpl in IH. exact IH.
Qed.

Lemma byteArray_char_codes (s : string) :
  Uint8Array (fill_byteNumbers s (String.length s) 0 (new_Array (String.length s)))
  = char_codes s.
Proof.
  unfold new_Array. rewrite length_list_ascii.
  pose proof (fill_byteNumbers_inv s (list_ascii_of_string s) [] eq_refl) as Hfill.
  simpl in Hfill. rewrite Hfill. clear Hfill.
  unfold Uint8Array, char_codes. rewrite map_map.
  apply map_ext. intros c. apply N.mod_small. apply N_ascii_bounded.
Qed.

(** ** The file extension *)

Lemma split_no_slash (s : string) : no_slash s -> split "/" s = [s].
Proof.
  unfold no_slash. induction s as [|c s IH]; intros H; simpl; [reflexivity|].
  destruct (Ascii.eqb_spec c "/") as [E|E].
  - exfalso. apply H. left. exact E.
  - rewrite IH; [reflexivity|]. intros Hin. apply H. right. exact Hin.
Qed.

Lemma split_first_slash (ty rest : string) :
  no_slash ty -> split "/" (ty ++ "/" ++ rest) = ty :: split "/" rest.
Proof.
  unfold no_slash. induction ty as [|c ty IH]; intros H; simpl; [reflexivity|].
  destruct (Ascii.eqb_spec c "/") as [E|E].
  - exfalso. apply H. left. exact E.
  - simpl in IH. rewrite IH; [reflexivity|]. intros Hin. apply H. right. exact Hin.
Qed.

Lemma extension_of_subtype (ty sub : string) :
  no_slash ty -> no_slash sub ->
  extension_of (ty ++ "/" ++ sub) = if JS.truthy sub then sub else "png".
Proof.
  intros Hty Hsub. unfold extension_of.
  rewrite (split_first_slash _ _ Hty), (split_no_slash _ Hsub). reflexivity.
Qed.

Lemma extension_of_no_subtype (mt : string) :
  no_slash mt -> extension_of mt = "png".
Proof.
  intros H. unfold extension_of. rewrite (split_no_slash _ H). reflexivity.
Qed.

(** ** Decoding what the encoder writes *)

Section Triples.

Variable A : Type.
Variable P : list A -> Prop.
Hypothesis P0 : P [].
Hypothesis P1 : forall a, P [a].
Hypothesis P2 : forall a b, P [a; b].
Hypothesis P3 : forall a b c rest, P rest -> P (a :: b :: c :: rest).

(** Induction three elements at a time, as the encoder reads its input. *)
Lemma list_ind3 (l : list A) : P l.
Proof.
  enough (H : P l /\ (forall a, P (a :: l)) /\ (forall a b, P (a :: b :: l)))
    by exact (proj1 H).
  induction l as [|x l (H0 & H1 & H2)].
  - auto.
  - repeat split; auto.
Qed.

End Triples.

Lemma alphabet_check_all :
  forallb alphabet_check (map N.of_nat (seq 0 64)) = true.
Proof. vm_compute. reflexivity. Qed.

Lemma alphabet_char_ok (v : N) :
  (v < 64)%N ->
  Base64.sextet (Base64.alphabet_char v) = Some v
  /\ Base64.is_whitespace (Base64.alphabet_char v) = false
  /\ Base64.is_padding (Base64.alphabet_char v) = false.
Proof.
  intros Hv.
  assert (Hin : In v (map N.of_nat (seq 0 64))).
  { apply in_map_iff. exists (N.to_nat v). split; [apply N2Nat.id|].
    apply in_seq. lia. }
  pose proof (proj1 (forallb_forall _ _) alphabet_check_all v Hin) as H.
  unfold alphabet_check in H.
  apply andb_prop in H. destruct H as [H Hp].
  apply andb_prop in H. destruct H as [Hs Hw].
  destruct (Base64.sextet (Base64.alphabet_char v)) as [w|]; [|discriminate].
  apply N.eqb_eq in Hs. subst w.
  repeat split.
  - now destruct (Base64.is_whitespace _).
  - now destruct (Base64.is_padding _).
Qed.

Lemma char_codes_byte_sized (s : string) : byte_sized (char_codes s).
Proof.
  unfold byte_sized, char_codes. apply Forall_forall. intros b Hb.
  apply in_map_iff in Hb. destruct Hb as (c & <- & _). apply N_ascii_bounded.
Qed.

(** The bounds of the bytes at the head of the list become hypotheses. *)
Ltac head_bounds :=
  repeat match goal with
         | H : byte_sized _ |- _ => unfold byte_sized in H
         | H : Forall _ (_ :: _) |- _ => inversion H; subst; clear H
         end.

Ltac div_mod_lia :=
  cbv zeta; zify; Z.to_euclidean_division_equations; lia.

Lemma encode_sextets (l : list N) :
  byte_sized l -> Forall (fun v => (v < 64)%N) (Base64.encode l).
Proof.
  induction l using list_ind3; intros H; head_bounds;
    cbn [Base64.encode]; repeat constructor;
    try (apply N.Div0.div_lt_upper_bound; lia);
    try (apply N.mod_lt; lia).
  apply IHl. assumption.
Qed.

Lemma decode_encode (l : list N) :
  byte_sized l -> Base64.decode (Base64.encode l) = l.
Proof.
  induction l using list_ind3; intros H; head_bounds;
    cbn [Base64.encode Base64.decode].
  - reflexivity.
  - f_equal. div_mod_lia.
  - f_equal; [|f_equal]; div_mod_lia.
  - rewrite IHl by assumption.
    f_equal; [|f_equal; [|f_equal]]; div_mod_lia.
Qed.

(** The output is made of groups of four characters: a last group of two
    or three sextets is filled up by the padding. *)
Lemma length_encode (l : list N) :
  exists k r p,
    length (Base64.encode l) = (r + k * 4)%nat
    /\ length (Base64.padding (length l)) = p
    /\ (r = 0 /\ p = 0 \/ r = 2 /\ p = 2 \/ r = 3 /\ p = 1)%nat.
Proof.
  induction l using list_ind3.
  - exists 0%nat, 0%nat, 0%nat. repeat split. auto.
  - exists 0%nat, 2%nat, 2%nat. repeat split. auto.
  - exists 0%nat, 3%nat, 1%nat. repeat split. auto.
  - destruct IHl as (k & r & p & Hlen & Hpad & Hr).
    exists (S k), r, p. split; [|split; [|exact Hr]].
    + cbn [Base64.encode length]. rewrite Hlen. lia.
    + rewrite <- Hpad. unfold Base64.padding. cbn [length].
      replace (S (S (S (length l)))) with (length l + 1 * 3)%nat by lia.
      rewrite Nat.Div0.mod_add. reflexivity.
Qed.

Lemma padding_cases (n : nat) :
  Base64.padding n = [] \/ Base64.padding n = ["="%char]
  \/ Base64.padding n = ["="%char; "="%char].
Proof.
  unfold Base64.padding. destruct (Nat.modulo n 3) as [|[|[|?]]]; auto.
Qed.

Lemma filter_all {A} (f : A -> bool) (l : list A) :
  Forall (fun x => f x = true) l -> filter f l = l.
Proof.
  induction 1 as [|x l Hx _ IH]; simpl; [reflexivity|].
  rewrite Hx, IH. reflexivity.
Qed.

Lemma strip_padding_rev_none (r : list ascii) :
  Forall (fun c => Base64.is_padding c = false) r ->
  Base64.strip_padding_rev r = r.
Proof.
  intros H. destruct H as [|p r Hp H]; [reflexivity|].
  simpl. rewrite Hp. destruct r; reflexivity.
Qed.

Lemma strip_padding_rev_one (r : list ascii) :
  Forall (fun c => Base64.is_padding c = false) r ->
  Base64.strip_padding_rev ("="%char :: r) = r.
Proof.
  intros H. destruct H as [|q r Hq H]; [reflexivity|].
  cbn. rewrite Hq. reflexivity.
Qed.

Section Encoded.

Variable l : list N.
Hypothesis Hl : byte_sized l.

Lemma body_chars :
  Forall (fun c => Base64.is_whitespace c = false /\ Base64.is_padding c = false)
         (encoded_body l).
Proof.
  unfold encoded_body. apply Forall_forall. intros c Hc.
  apply in_map_iff in Hc. destruct Hc as (v & <- & Hv).
  pose proof (proj1 (Forall_forall _ _) (encode_sextets l Hl) v Hv) as Hlt.
  destruct (alphabet_char_ok v Hlt) as (_ & Hw & Hp). split; assumption.
Qed.

Lemma encoded_no_whitespace :
  filter (fun c => negb (Base64.is_whitespace c))
         (encoded_body l ++ Base64.padding (length l))
  = (encoded_body l ++ Base64.padding (length l))%list.
Proof.
  apply filter_all. apply Forall_app. split.
  - eapply Forall_impl; [|exact body_chars]. intros c [Hw _]. now rewrite Hw.
  - destruct (padding_cases (length l)) as [E|[E|E]]; rewrite E;
      repeat constructor.
Qed.

Lemma encoded_strip_padding :
  Base64.strip_padding (encoded_body l ++ Base64.padding (length l))
  = encoded_body l.
Proof.
  assert (Hnp : Forall (fun c => Base64.is_padding c = false) (rev (encoded_body l))).
  { apply Forall_rev. eapply Forall_impl; [|exact body_chars]. now intros c [_ Hp]. }
  unfold Base64.strip_padding.
  destruct (length_encode l) as (k & r & p & Hlen & Hpad & Hr).
  assert (Hmod : Nat.modulo (length (encoded_body l ++ Base64.padding (length l))) 4
                 = 0%nat).
  { rewrite length_app. unfold encoded_body. rewrite length_map, Hlen, Hpad.
    destruct Hr as [[-> ->] | [[-> ->] | [-> ->]]].
    - replace (0 + k * 4 + 0)%nat with (0 + k * 4)%nat by lia.
      apply Nat.Div0.mod_add.
    - replace (2 + k * 4 + 2)%nat with (0 + S k * 4)%nat by lia.
      apply Nat.Div0.mod_add.
    - replace (3 + k * 4 + 1)%nat with (0 + S k * 4)%nat by lia.
      apply Nat.Div0.mod_add. }
  rewrite Hmod. cbn [Nat.eqb]. rewrite rev_app_distr.
  destruct (padding_cases (length l)) as [E|[E|E]]; rewrite E; cbn [rev app].
  - rewrite (strip_padding_rev_none _ Hnp). apply rev_involutive.
  - rewrite (strip_padding_rev_one _ Hnp). apply rev_involutive.
  - cbn. apply rev_involutive.
Qed.

Lemma body_length :
  Nat.eqb (Nat.modulo (length (encoded_body l)) 4) 1 = false.
Proof.
  unfold encoded_body. rewrite length_map.
  destruct (length_encode l) as (k & r & p & Hlen & _ & Hr). rewrite Hlen.
  rewrite Nat.Div0.mod_add.
  destruct Hr as [[-> _] | [[-> _] | [-> _]]]; reflexivity.
Qed.

Lemma body_sextets : Base64.sextets (encoded_body l) = Some (Base64.encode l).
Proof.
  unfold encoded_body. pose proof (encode_sextets l Hl) as H.
  induction H as [|v vs Hv _ IH]; [reflexivity|].
  cbn [map Base64.sextets].
  rewrite (proj1 (alphabet_char_ok v Hv)), IH. reflexivity.
Qed.

End Encoded.

(** Every base64 text written by the encoder decodes, to the bytes that
    were encoded. *)
Lemma atob_btoa (s : string) : Base64.atob (Base64.btoa s) = inr s.
Proof.
  unfold Base64.atob, Base64.btoa. fold (char_codes s).
  fold (encoded_body (char_codes s)).
  pose proof (char_codes_byte_sized s) as Hl.
  rewrite list_ascii_of_string_of_list_ascii.
  rewrite (encoded_no_whitespace _ Hl), (encoded_strip_padding _ Hl).
  rewrite (body_length (char_codes s)), (body_sextets _ Hl), (decode_encode _ Hl).
  f_equal. unfold char_codes. rewrite map_map.
  rewrite (map_ext _ (fun c => c)) by (intros c; apply ascii_N_embedding).
  rewrite map_id. apply string_of_list_ascii_of_string.
Qed.

(** ** The runs of saveImage *)

Lemma save_run (s : State) (part : Part) (inline : InlineData) (decoded : string) :
  image s = Some part ->
  inlineData part = Some inline ->
  word s <> "" ->
  Base64.atob (data inline) = inr decoded ->
  saveImage s = ([save_request (word s) inline decoded], inr tt).
Proof.
  intros Hi Hp Hw Hd. unfold saveImage, atob, save_request.
  rewrite Hi, (truthy_nonempty _ Hw), Hp, Hd.
  cbn -[String.append extension_of fill_byteNumbers new_Array Uint8Array].
  rewrite byteArray_char_codes. reflexivity.
Qed.

Lemma save_run_decode_error (s : State) (part : Part) (inline : InlineData)
    (err : JS.Exception) :
  image s = Some part ->
  inlineData part = Some inline ->
  word s <> "" ->
  Base64.atob (data inline) = inl err ->
  saveImage s =
    ([ ConsoleError "Error saving image:" err;
       SetError (Some ("Failed to save image: "
                         ++ JS.message_or err "Unknown error")) ],
     inr tt).
Proof.
  intros Hi Hp Hw Hd. unfold saveImage, atob.
  rewrite Hi, (truthy_nonempty _ Hw), Hp, Hd. reflexivity.
Qed.

(** * The claims *)

(** ** The response classification *)

(** C1: when the first candidate of the response lists the image-safety
    marker among its blocked categories, the handler reports the block with
    its own message, which is neither of the two failure messages, and
    stores no image, whatever inline data the response carries: the check
    comes before the search for the image part. *)
Theorem generateImage_safety_block
    (API_KEY : string) (api : Service) (s : State) (response : Response) :
  word s <> "" -> style s <> "" -> API_KEY <> "" ->
  api model_name (sent_request s) = inr response ->
  declares_image_safety_block response ->
  let m := generateImage API_KEY api s in
  let s' := after s m in
  error s' = Some msg_blocked
  /\ msg_blocked <> msg_no_image
  /\ (forall d, msg_blocked <> "Failed to generate image: " ++ d)
  /\ (forall v, ~ In (SetImage v) (Eff.effects m))
  /\ image s' = image s
  /\ last (debugInfo s') "" = "Image was blocked due to safety concerns"
  /\ loading s' = false
  /\ Eff.uncaught m = None.
Proof.
  intros Hw Hs Hk Hapi Hb m s'. subst s' m.
  apply safety_blocked_iff in Hb.
  rewrite (run_blocked _ _ _ Hw Hs Hk _ Hapi Hb).
  repeat split; try reflexivity; try discriminate.
  intros v Hin. simpl in Hin.
  repeat (destruct Hin as [Hin|Hin]; [discriminate|]). exact Hin.
Qed.

Lemma generateImage_safety_block_witness :
  let s' := after fox_state (generateImage "key" (answer blocked_response) fox_state) in
  find_imagePart blocked_response = Some (inline_part png_inline)
  /\ error s' = Some msg_blocked
  /\ image s' = None.
Proof.
  split; [reflexivity|].
  pose proof (generateImage_safety_block "key" (answer blocked_response)
                fox_state blocked_response
                ltac:(discriminate) ltac:(discriminate) ltac:(discriminate)
                eq_refl blocked_response_blocked) as H.
  cbv zeta in H. destruct H as (He & _ & _ & _ & Hi & _).
  split; [exact He | exact Hi].
Defined.

(** C2: when the response is not blocked and [p] is the first content part
    of its first candidate that carries inline data, the handler stores [p]
    itself and leaves no error: the MIME type and the base64 text of the
    stored image are those of the response, unchanged, so that the bytes a
    later save decodes from the stored image are the bytes the text of the
    response decodes to: the bytes that were encoded, when the text is the
    encoding of some bytes. *)
Theorem generateImage_stores_inline_part
    (API_KEY : string) (api : Service) (s : State) (response : Response)
    (p : Part) (inline : InlineData) :
  word s <> "" -> style s <> "" -> API_KEY <> "" ->
  api model_name (sent_request s) = inr response ->
  ~ declares_image_safety_block response ->
  first_inline_part response p inline ->
  let m := generateImage API_KEY api s in
  let s' := after s m in
  image s' = Some p
  /\ image s' ?. inlineData = Some inline
  /\ (forall decoded, Base64.atob (data inline) = inr decoded ->
        Eff.effects (saveImage s') = [save_request (word s) inline decoded])
  /\ (forall raw, data inline = Base64.btoa raw ->
        Eff.effects (saveImage s') = [save_request (word s) inline raw])
  /\ error s' = None
  /\ last (debugInfo s') "" = "Image MIME type: " ++ mimeType inline
  /\ loading s' = false
  /\ Eff.uncaught m = None.
Proof.
  intros Hw Hs Hk Hapi Hnb Hfirst m s'. subst s' m.
  pose proof (find_imagePart_first _ _ _ Hfirst) as Hf.
  destruct Hfirst as (_ & _ & _ & _ & _ & _ & _ & _ & _ & Hp).
  rewrite (run_image _ _ _ Hw Hs Hk _ _ _ Hapi (not_blocked _ Hnb) Hf Hp).
  assert (Hsave : forall decoded, Base64.atob (data inline) = inr decoded ->
            Eff.effects
              (saveImage (after s (app (prefix_effects s)
                 [ SetDebugInfo [line_sending s; "Received response from Gemini API"];
                   SetImage (Some p);
                   SetDebugInfo [line_sending s; "Received response from Gemini API";
                                 "Processing response";
                                 "Successfully extracted image data";
                                 "Image MIME type: " ++ mimeType inline];
                   SetLoading false ], inr tt)))
            = [save_request (word s) inline decoded]).
  { intros decoded Hd.
    erewrite save_run; [reflexivity | reflexivity | exact Hp | exact Hw | exact Hd]. }
  split; [reflexivity|]. split; [exact Hp|]. split; [exact Hsave|].
  split; [|repeat split; reflexivity].
  intros raw E. apply Hsave. rewrite E. apply atob_btoa.
Qed.

Lemma generateImage_stores_inline_part_witness :
  let s' := after fox_state (generateImage "key" (answer image_response) fox_state) in
  image s' = Some (inline_part png_inline)
  /\ image s' ?. inlineData = Some png_inline
  /\ error s' = None.
Proof.
  pose proof (generateImage_stores_inline_part "key" (answer image_response)
                fox_state image_response (inline_part png_inline) png_inline
                ltac:(discriminate) ltac:(discriminate) ltac:(discriminate)
                eq_refl image_response_not_blocked image_response_first_part) as H.
  cbv zeta in H. destruct H as (Hi & Hd & _ & _ & He & _).
  split; [exact Hi | split; [exact Hd | exact He]].
Defined.

(** C3: when the response is not blocked and no content part of its first
    candidate carries inline data, the handler sets the error "Failed to
    generate an image. The API did not return image data." and the last line
    of the trace is "API Response: " followed by the serialized response. *)
Theorem generateImage_no_image_data
    (API_KEY : string) (api : Service) (s : State) (response : Response) :
  word s <> "" -> style s <> "" -> API_KEY <> "" ->
  api model_name (sent_request s) = inr response ->
  ~ declares_image_safety_block response ->
  no_inline_part response ->
  let m := generateImage API_KEY api s in
  let s' := after s m in
  error s' = Some "Failed to generate an image. The API did not return image data."
  /\ last (debugInfo s') "" = "API Response: " ++ JSON.stringify response
  /\ image s' = image s
  /\ loading s' = false
  /\ Eff.uncaught m = None.
Proof.
  intros Hw Hs Hk Hapi Hnb Hno m s'. subst s' m.
  assert (Hf : find_imagePart response ?. inlineData = None).
  { rewrite (find_imagePart_none _ Hno). reflexivity. }
  rewrite (run_no_image _ _ _ Hw Hs Hk _ Hapi (not_blocked _ Hnb) Hf).
  repeat split; reflexivity.
Qed.

Lemma generateImage_no_image_data_witness :
  let s' := after fox_state (generateImage "key" (answer text_response) fox_state) in
  error s' = Some msg_no_image
  /\ last (debugInfo s') "" = "API Response: " ++ JSON.stringify text_response.
Proof.
  pose proof (generateImage_no_image_data "key" (answer text_response)
                fox_state text_response
                ltac:(discriminate) ltac:(discriminate) ltac:(discriminate)
                eq_refl text_response_not_blocked text_response_no_inline_part) as H.
  cbv zeta in H. destruct H as (He & Hl & _).
  split; [exact He | exact Hl].
Defined.

(** The message the specification quotes for a response without image data
    is not the one the handler sets. *)
Lemma generateImage_no_image_data_message :
  let s' := after fox_state (generateImage "key" (answer text_response) fox_state) in
  ~ declares_image_safety_block text_response
  /\ no_inline_part text_response
  /\ error s' <> Some "no image data returned".
Proof.
  split; [exact text_response_not_blocked|].
  split; [exact text_response_no_inline_part|].
  vm_compute. discriminate.
Qed.

(** ** The rejected call *)

(** When the service rejects the call, the error is built from the message
    of the exception, and the error line is put after the lines the trace
    held when the handler was created, not after the line of this request. *)
Lemma generateImage_rejected
    (API_KEY : string) (api : Service) (s : State) (err : JS.Exception) :
  word s <> "" -> style s <> "" -> API_KEY <> "" ->
  api model_name (sent_request s) = inl err ->
  let m := generateImage API_KEY api s in
  let s' := after s m in
  error s' = Some ("Failed to generate image: " ++ JS.message_or err "Unknown error")
  /\ debugInfo s' = JS.push (debugInfo s) ("Error: " ++ JS.message_or err "Unknown error")
  /\ image s' = image s
  /\ loading s' = false
  /\ Eff.uncaught m = None.
Proof.
  intros Hw Hs Hk Hapi m s'. subst s' m.
  rewrite (run_rejected _ _ _ Hw Hs Hk _ Hapi).
  repeat split; reflexivity.
Qed.

(** An exception without a message, or with an empty one, is reported as
    "Unknown error". *)
Lemma generateImage_rejected_unknown
    (API_KEY : string) (api : Service) (s : State) (err : JS.Exception) :
  word s <> "" -> style s <> "" -> API_KEY <> "" ->
  api model_name (sent_request s) = inl err ->
  JS.message err = None \/ JS.message err = Some "" ->
  error (after s (generateImage API_KEY api s))
  = Some "Failed to generate image: Unknown error".
Proof.
  intros Hw Hs Hk Hapi Hm.
  destruct (generateImage_rejected API_KEY api s err Hw Hs Hk Hapi) as (He & _).
  rewrite He, (message_or_absent _ _ Hm). reflexivity.
Qed.

(** C4: a first request is blocked and leaves four lines in the trace; the
    same request is made again and the service rejects it.  The error
    message is built from the exception, but the trace ends up as the four
    lines of the first request followed by the error line, although the
    handler has emptied the trace and stored the line of the second request
    before the call: that line is gone and the stale lines are back. *)
Theorem generateImage_error_line_follows_stale_trace :
  let s1 := after fox_state (generateImage "key" (answer blocked_response) fox_state) in
  let m := generateImage "key" (reject network_error) s1 in
  let s2 := after s1 m in
  error s2 = Some "Failed to generate image: Failed to fetch"
  /\ debugInfo s1 = [ line_sending fox_state;
                      "Received response from Gemini API";
                      "Processing response";
                      "Image was blocked due to safety concerns" ]
  /\ debugInfo (apply_effects s1 (before_call (Eff.effects m))) = [ line_sending s1 ]
  /\ debugInfo s2 = JS.push (debugInfo s1) "Error: Failed to fetch"
  /\ debugInfo s2 <> [ line_sending s1; "Error: Failed to fetch" ].
Proof.
  cbv zeta. repeat split; try reflexivity.
  vm_compute. discriminate.
Qed.

(** ** The guards *)

(** C5: with an empty word or style, or with an empty API key, the handler
    sets an error and does nothing else: no call is issued.  The message for
    a missing field is not the message for the missing key.  The fields are
    tested as they are, without trimming. *)
Theorem generateImage_guards (API_KEY : string) (api : Service) (s : State) :
  word s = "" \/ style s = "" \/ API_KEY = "" ->
  let m := generateImage API_KEY api s in
  calls (Eff.effects m) = []
  /\ Eff.uncaught m = None
  /\ (word s = "" \/ style s = "" ->
      Eff.effects m = [SetError (Some "Please enter both a word and style")])
  /\ (word s <> "" -> style s <> "" ->
      Eff.effects m =
        [SetError (Some "API key is missing. Please add your Gemini API key to the .env file.")]).
Proof.
  intros H m. subst m. unfold generateImage.
  destruct (String.eqb_spec (word s) "") as [Ew|Ew].
  - unfold JS.truthy at 1. rewrite Ew. simpl.
    repeat split; try reflexivity. intros Hw. contradiction.
  - rewrite (truthy_nonempty _ Ew). simpl.
    destruct (String.eqb_spec (style s) "") as [Es|Es].
    + unfold JS.truthy at 1. rewrite Es. simpl.
      repeat split; try reflexivity. intros _ Hs. contradiction.
    + rewrite (truthy_nonempty _ Es). simpl.
      destruct H as [H|[H|H]]; try contradiction.
      rewrite H. simpl.
      repeat split; try reflexivity. intros [Hw|Hs]; contradiction.
Qed.

Lemma generateImage_guards_witness :
  let m := generateImage "key" (answer image_response) empty_word_state in
  calls (Eff.effects m) = []
  /\ Eff.effects m = [SetError (Some msg_missing_fields)].
Proof.
  pose proof (generateImage_guards "key" (answer image_response) empty_word_state
                (or_introl eq_refl)) as H.
  cbv zeta in H. destruct H as (Hc & _ & He & _).
  split; [exact Hc | exact (He (or_introl eq_refl))].
Defined.

(** A word of one space passes the guard and the call is issued. *)
Lemma generateImage_blank_word_calls :
  let m := generateImage "key" (answer image_response) blank_word_state in
  whitespace_only (word blank_word_state) = true
  /\ calls (Eff.effects m) = [(model_name, sent_request blank_word_state)]
  /\ error (after blank_word_state m) = None.
Proof.
  cbv zeta. repeat split.
Qed.

(** ** The prompt *)

(** C6: with a non-empty word and style and a key, the handler issues one
    call, to the model "gemini-2.0-flash-exp", and the text it sends is the
    template with the word between double quotes and the style put in twice;
    for "fox" and "watercolor" the text holds "fox" once and "watercolor"
    twice. *)
Theorem generateImage_sends_template (API_KEY : string) (api : Service) (s : State) :
  word s <> "" -> style s <> "" -> API_KEY <> "" ->
  let prompt :=
    "Create a high-quality, clear image of a " ++ JS.str JS.dquote ++ word s
      ++ JS.str JS.dquote ++ " in the style of " ++ style s
      ++ ". The object should be the central focus of the image, and visually styled according to the description: "
      ++ style s ++ ". Make it visually appealing and artistic." in
  calls (Eff.effects (generateImage API_KEY api s)) =
    [ ("gemini-2.0-flash-exp",
       {| contents :=
            [ {| parts := Some [ {| text := Some prompt; inlineData := None |} ];
                 role := Some "user" |} ];
          generationConfig := {| responseModalities := ["Text"; "Image"] |} |}) ]
  /\ occurrences "fox" (imagePrompt "fox" "watercolor") = 1
  /\ occurrences "watercolor" (imagePrompt "fox" "watercolor") = 2.
Proof.
  intros Hw Hs Hk prompt. subst prompt.
  destruct (run_cases API_KEY api s Hw Hs Hk) as (suffix & Hrun & Hcalls & _).
  rewrite Hrun. unfold Eff.effects, calls, fst.
  rewrite flat_map_app. fold (calls suffix). rewrite Hcalls.
  repeat split.
Qed.

Lemma generateImage_sends_template_witness :
  calls (Eff.effects (generateImage "key" (answer image_response) fox_state)) =
    [ (model_name, prompt_request (imagePrompt "fox" "watercolor")) ].
Proof.
  exact (proj1 (generateImage_sends_template "key" (answer image_response) fox_state
                  ltac:(discriminate) ltac:(discriminate) ltac:(discriminate))).
Defined.

(** The prompt for "fox" and "watercolor" is not the template of the
    specification, and "watercolor" is found in it twice. *)
Lemma imagePrompt_differs_from_claimed :
  imagePrompt "fox" "watercolor" <> claimed_prompt "fox" "watercolor"
  /\ occurrences "watercolor" (imagePrompt "fox" "watercolor") <> 1.
Proof.
  split; vm_compute; discriminate.
Qed.

(** ** What a new request resets *)

(** C9: a request that passes the guards sets the loading flag, clears the
    error and empties the trace before it calls the service; when the call
    is issued the trace holds the line of this request only.  The stored
    image is not touched before the call, and the handler never clears
    it. *)
Theorem generateImage_resets_error_and_trace
    (API_KEY : string) (api : Service) (s : State) :
  word s <> "" -> style s <> "" -> API_KEY <> "" ->
  let m := generateImage API_KEY api s in
  let at_call := apply_effects s (before_call (Eff.effects m)) in
  (exists suffix,
      Eff.effects m =
        SetLoading true :: SetError None :: SetDebugInfo []
          :: SetDebugInfo [line_sending s]
          :: GenerateContent model_name (sent_request s) :: suffix)
  /\ loading at_call = true
  /\ error at_call = None
  /\ debugInfo at_call = [line_sending s]
  /\ image at_call = image s
  /\ ~ In (SetImage None) (Eff.effects m).
Proof.
  intros Hw Hs Hk m at_call. subst at_call m.
  destruct (run_cases API_KEY api s Hw Hs Hk) as (suffix & Hrun & _ & Hclear).
  rewrite Hrun. split; [exists suffix; reflexivity|].
  repeat split; try reflexivity.
  unfold Eff.effects, fst. intros Hin. apply in_app_or in Hin.
  destruct Hin as [Hin|Hin]; [|exact (Hclear Hin)].
  simpl in Hin. intuition discriminate.
Qed.

Lemma generateImage_resets_error_and_trace_witness :
  let m := generateImage "key" (answer text_response) state_with_image in
  let at_call := apply_effects state_with_image (before_call (Eff.effects m)) in
  error state_with_image = Some msg_blocked
  /\ error at_call = None
  /\ debugInfo at_call = [line_sending state_with_image].
Proof.
  split; [reflexivity|].
  pose proof (generateImage_resets_error_and_trace "key" (answer text_response)
                state_with_image
                ltac:(discriminate) ltac:(discriminate) ltac:(discriminate)) as H.
  cbv zeta in H. destruct H as (_ & _ & He & Hd & _).
  split; [exact He | exact Hd].
Defined.

(** The image of the earlier request is still stored when the call is
    issued, and still stored after a request that yields no image. *)
Lemma generateImage_keeps_previous_image :
  let m := generateImage "key" (answer text_response) state_with_image in
  let at_call := apply_effects state_with_image (before_call (Eff.effects m)) in
  calls (Eff.effects m) <> []
  /\ image at_call = Some (inline_part png_inline)
  /\ image (after state_with_image m) = Some (inline_part png_inline)
  /\ error (after state_with_image m) = Some msg_no_image.
Proof.
  cbv zeta. repeat split. vm_compute. discriminate.
Qed.

(** ** saveImage *)

(** C7: with a stored image part that carries inline data, a non-empty word
    and base64 text that decodes, the handler makes one save request and
    nothing else: the blob holds the decoded bytes and the MIME type, and
    the name is the word, a dot and the extension.  When the text is the
    encoding of some bytes, the decoded bytes are those bytes.  The
    extension is the part of the MIME type after the slash, or "png" when
    that part is empty or there is no slash. *)
Theorem saveImage_saves_decoded_bytes
    (s : State) (part : Part) (inline : InlineData) (decoded : string) :
  image s = Some part ->
  inlineData part = Some inline ->
  word s <> "" ->
  Base64.atob (data inline) = inr decoded ->
  let m := saveImage s in
  Eff.effects m =
    [ SaveAs {| bytes := char_codes decoded; blob_type := mimeType inline |}
             (word s ++ "." ++ extension_of (mimeType inline)) ]
  /\ Eff.uncaught m = None
  /\ (forall raw, data inline = Base64.btoa raw -> decoded = raw)
  /\ (forall ty sub, mimeType inline = ty ++ "/" ++ sub ->
        no_slash ty -> no_slash sub ->
        extension_of (mimeType inline) = if JS.truthy sub then sub else "png")
  /\ (no_slash (mimeType inline) -> extension_of (mimeType inline) = "png").
Proof.
  intros Hi Hp Hw Hd m. subst m.
  rewrite (save_run _ _ _ _ Hi Hp Hw Hd).
  repeat split.
  - intros raw E. rewrite E, atob_btoa in Hd. injection Hd as Hd. auto.
  - intros ty sub E Hty Hsub. rewrite E. apply extension_of_subtype; assumption.
  - apply extension_of_no_subtype.
Qed.

Lemma saveImage_saves_decoded_bytes_witness :
  Eff.effects (saveImage cat_state) =
    [ SaveAs {| bytes := char_codes "abc"; blob_type := "image/jpeg" |} "cat.jpeg" ]
  /\ data jpeg_abc_inline = Base64.btoa "abc"
  /\ char_codes "abc" = [97; 98; 99]%N.
Proof.
  split; [|split; reflexivity].
  exact (proj1 (saveImage_saves_decoded_bytes cat_state
                  (inline_part jpeg_abc_inline) jpeg_abc_inline "abc"
                  eq_refl eq_refl ltac:(discriminate) eq_refl)).
Defined.

(** With an empty word nothing is saved, although the payload is valid. *)
Lemma saveImage_no_save_without_word :
  image empty_word_state = Some (inline_part jpeg_abc_inline)
  /\ Base64.atob (data jpeg_abc_inline) = inr "abc"
  /\ Eff.effects (saveImage empty_word_state) = [].
Proof.
  repeat split.
Qed.

(** C8: no exception escapes the handler.  Without a stored image it does
    nothing; when the base64 text does not decode, the exception of the
    decoder is caught and turned into the error "Failed to save image: "
    followed by its message, or by "Unknown error" when it has none. *)
Theorem saveImage_never_throws (s : State) :
  let m := saveImage s in
  Eff.uncaught m = None
  /\ (image s = None -> Eff.effects m = [])
  /\ (forall part inline err,
        image s = Some part -> word s <> "" ->
        inlineData part = Some inline ->
        Base64.atob (data inline) = inl err ->
        Eff.effects m =
          [ ConsoleError "Error saving image:" err;
            SetError (Some ("Failed to save image: "
                              ++ JS.message_or err "Unknown error")) ]).
Proof.
  cbv zeta. split; [|split].
  - unfold saveImage, atob.
    destruct (image s) as [part|]; [|reflexivity].
    destruct (JS.truthy (word s)); [|reflexivity].
    destruct (inlineData part) as [inline|]; [|reflexivity].
    destruct (Base64.atob (data inline)); reflexivity.
  - unfold saveImage. intros ->. reflexivity.
  - intros part inline err Hi Hw Hp Hd.
    rewrite (save_run_decode_error _ _ _ _ Hi Hp Hw Hd). reflexivity.
Qed.

Lemma saveImage_never_throws_witness :
  Eff.uncaught (saveImage malformed_state) = None
  /\ error (after malformed_state (saveImage malformed_state)) =
       Some "Failed to save image: The string to be decoded is not correctly encoded.".
Proof.
  destruct (saveImage_never_throws malformed_state) as (Hu & _ & He).
  split; [exact Hu|].
  unfold after.
  rewrite (He (inline_part malformed_inline) malformed_inline
              Base64.InvalidCharacterError
              eq_refl ltac:(discriminate) eq_refl eq_refl).
  reflexivity.
Defined.

(** C10: with an empty word the handler does nothing at all, whatever image
    is stored: no save request, no setter call, no exception. *)
Theorem saveImage_empty_word (s : State) :
  word s = "" ->
  let m := saveImage s in
  Eff.effects m = [] /\ Eff.uncaught m = None /\ after s m = s.
Proof.
  intros Hw m. subst m. unfold after, saveImage. rewrite Hw.
  destruct (image s); repeat split; reflexivity.
Qed.

Lemma saveImage_empty_word_witness :
  image empty_word_state = Some (inline_part jpeg_abc_inline)
  /\ Eff.effects (saveImage empty_word_state) = []
  /\ Eff.uncaught (saveImage empty_word_state) = None.
Proof.
  split; [reflexivity|].
  destruct (saveImage_empty_word empty_word_state eq_refl) as (He & Hu & _).
  split; [exact He | exact Hu].
Defined.


(** * Further properties *)

(** ** Every run of generateImage *)

(** The three guards are decidable: they pass or one of them fails. *)
Lemma guards_dec (API_KEY : string) (s : State) :
  (word s <> "" /\ style s <> "" /\ API_KEY <> "")
  \/ (word s = "" \/ style s = "" \/ API_KEY = "").
Proof.
  destruct (String.eqb_spec (word s) ""); [right; auto|].
  destruct (String.eqb_spec (style s) ""); [right; auto|].
  destruct (String.eqb_spec API_KEY ""); [right; auto|].
  left. auto.
Qed.

(** A run stopped by a guard sets one error and does nothing else. *)
Lemma run_guarded (API_KEY : string) (api : Service) (s : State) :
  word s = "" \/ style s = "" \/ API_KEY = "" ->
  exists msg,
    generateImage API_KEY api s = ([SetError (Some msg)], inr tt)
    /\ (msg = msg_missing_fields /\ (word s = "" \/ style s = "")
        \/ msg = msg_missing_key /\ word s <> "" /\ style s <> "").
Proof.
  intros H. unfold generateImage.
  destruct (String.eqb_spec (word s) "") as [Ew|Ew].
  - unfold JS.truthy at 1. rewrite Ew. simpl.
    exists msg_missing_fields. split; [reflexivity | left; auto].
  - rewrite (truthy_nonempty _ Ew). simpl.
    destruct (String.eqb_spec (style s) "") as [Es|Es].
    + unfold JS.truthy at 1. rewrite Es. simpl.
      exists msg_missing_fields. split; [reflexivity | left; auto].
    + rewrite (truthy_nonempty _ Es). simpl.
      destruct H as [H|[H|H]]; try contradiction.
      rewrite H. simpl.
      exists msg_missing_key. split; [reflexivity | right; auto].
Qed.

(** A run that passes the guards is one of four. *)
Lemma run_shape (API_KEY : string) (api : Service) (s : State) :
  word s <> "" -> style s <> "" -> API_KEY <> "" ->
  (exists err,
      api model_name (sent_request s) = inl err
      /\ generateImage API_KEY api s
         = (app (prefix_effects s) (rejected_suffix s err), inr tt))
  \/ (exists response,
      api model_name (sent_request s) = inr response
      /\ safety_blocked response = true
      /\ generateImage API_KEY api s
         = (app (prefix_effects s) (blocked_suffix s), inr tt))
  \/ (exists response p inline,
      api model_name (sent_request s) = inr response
      /\ safety_blocked response = false
      /\ find_imagePart response = Some p
      /\ inlineData p = Some inline
      /\ generateImage API_KEY api s
         = (app (prefix_effects s) (image_suffix s p inline), inr tt))
  \/ (exists response,
      api model_name (sent_request s) = inr response
      /\ safety_blocked response = false
      /\ find_imagePart response ?. inlineData = None
      /\ generateImage API_KEY api s
         = (app (prefix_effects s) (no_image_suffix s response), inr tt)).
Proof.
  intros Hw Hs Hk.
  destruct (api model_name (sent_request s)) as [err|response] eqn:Hapi.
  - left. exists err. split; [reflexivity|].
    apply (run_rejected _ _ _ Hw Hs Hk _ Hapi).
  - destruct (safety_blocked response) eqn:Hb.
    + right. left. exists response.
      split; [reflexivity|]. split; [exact Hb|].
      apply (run_blocked _ _ _ Hw Hs Hk _ Hapi Hb).
    + destruct (find_imagePart response ?. inlineData) as [inline|] eqn:Hf.
      * destruct (find_imagePart response) as [p|] eqn:Hp; [|discriminate].
        simpl in Hf. right. right. left. exists response, p, inline.
        split; [reflexivity|]. split; [exact Hb|].
        split; [exact Hp|]. split; [exact Hf|].
        apply (run_image _ _ _ Hw Hs Hk _ _ _ Hapi Hb Hp Hf).
      * right. right. right. exists response.
        split; [reflexivity|]. split; [exact Hb|]. split; [exact Hf|].
        apply (run_no_image _ _ _ Hw Hs Hk _ Hapi Hb Hf).
Qed.

(** The cases of a run that passes the guards, with the run rewritten. *)
Ltac run_by_cases Hw Hs Hk :=
  match goal with
  | |- context [generateImage ?k ?api ?s] =>
      destruct (run_shape k api s Hw Hs Hk)
        as [(err & Hapi & Hrun)
           |[(response & Hapi & Hb & Hrun)
            |[(response & p & inline & Hapi & Hb & Hf & Hp & Hrun)
             |(response & Hapi & Hb & Hf & Hrun)]]];
      rewrite Hrun
  end.



(** X2: [generateImage] calls the service when the word, the style and the
    key are all non-empty, and only then; it never calls it twice. *)
Theorem generateImage_calls_iff (API_KEY : string) (api : Service) (s : State) :
  let cs := calls (Eff.effects (generateImage API_KEY api s)) in
  (cs = [] <-> word s = "" \/ style s = "" \/ API_KEY = "")
  /\ (cs <> [] -> cs = [(model_name, sent_request s)]).
Proof.
  cbv zeta.
  destruct (guards_dec API_KEY s) as [(Hw & Hs & Hk)|Hg].
  - destruct (run_cases API_KEY api s Hw Hs Hk) as (suffix & Hrun & Hcalls & _).
    rewrite Hrun. unfold Eff.effects, fst, calls. rewrite flat_map_app.
    fold (calls suffix). rewrite Hcalls. simpl. split.
    + split; [discriminate|]. intros [H|[H|H]]; contradiction.
    + reflexivity.
  - destruct (run_guarded API_KEY api s Hg) as (msg & -> & _). simpl. split.
    + split; auto.
    + intros H. contradiction.
Qed.

(** X3: [generateImage] changes the stored image in one case only: the
    service answers, the answer is not blocked, and the first candidate has
    a part with inline data; the first such part is then stored and the
    error is cleared.  In every other case the stored image is the one
    before. *)
Theorem generateImage_image_only_from_response
    (API_KEY : string) (api : Service) (s : State) :
  let s' := after s (generateImage API_KEY api s) in
  image s' = image s
  \/ exists response p inline,
       api model_name (sent_request s) = inr response
       /\ safety_blocked response = false
       /\ find_imagePart response = Some p
       /\ inlineData p = Some inline
       /\ image s' = Some p
       /\ error s' = None.
Proof.
  cbv zeta.
  destruct (guards_dec API_KEY s) as [(Hw & Hs & Hk)|Hg].
  - run_by_cases Hw Hs Hk; try (left; reflexivity).
    right. exists response, p, inline. repeat split; assumption.
  - destruct (run_guarded API_KEY api s Hg) as (msg & -> & _). left. reflexivity.
Qed.



(** X5: when the service answers, the trace that is left holds lines of this
    request only: the line with the prompt, the two lines that follow the
    answer, and one or two lines of the classification.  It does not depend
    on the trace before the request. *)
Theorem generateImage_trace_fresh
    (API_KEY : string) (api : Service) (s : State) (response : Response) :
  word s <> "" -> style s <> "" -> API_KEY <> "" ->
  api model_name (sent_request s) = inr response ->
  exists rest,
    debugInfo (after s (generateImage API_KEY api s))
    = line_sending s :: "Received response from Gemini API"
        :: "Processing response" :: rest
    /\ (length rest = 1 \/ length rest = 2)
    /\ forall earlier,
         debugInfo (after (apply_effect s (SetDebugInfo earlier))
                          (generateImage API_KEY api
                             (apply_effect s (SetDebugInfo earlier))))
         = line_sending s :: "Received response from Gemini API"
             :: "Processing response" :: rest.
Proof.
  intros Hw Hs Hk Hans.
  assert (Hsame : forall earlier,
             api model_name (sent_request (apply_effect s (SetDebugInfo earlier)))
             = inr response) by (intros earlier; exact Hans).
  destruct (run_shape API_KEY api s Hw Hs Hk)
    as [(err & Hapi & _)
       |[(r & Hapi & Hb & Hrun)
        |[(r & p & inline & Hapi & Hb & Hf & Hp & Hrun)
         |(r & Hapi & Hb & Hf & Hrun)]]];
    rewrite Hans in Hapi; [discriminate| | |];
    injection Hapi as <-; rewrite Hrun.
  - eexists. split; [reflexivity|]. split; [left; reflexivity|].
    intros earlier.
    rewrite (run_blocked API_KEY api (apply_effect s (SetDebugInfo earlier)) Hw Hs Hk _ (Hsame earlier) Hb). reflexivity.
  - eexists. split; [reflexivity|]. split; [right; reflexivity|].
    intros earlier.
    rewrite (run_image API_KEY api (apply_effect s (SetDebugInfo earlier)) Hw Hs Hk _ _ _ (Hsame earlier) Hb Hf Hp).
    reflexivity.
  - eexists. split; [reflexivity|]. split; [right; reflexivity|].
    intros earlier.
    rewrite (run_no_image API_KEY api (apply_effect s (SetDebugInfo earlier)) Hw Hs Hk _ (Hsame earlier) Hb Hf).
    reflexivity.
Qed.

Lemma generateImage_trace_fresh_witness :
  debugInfo state_with_image = ["earlier line"]
  /\ exists rest,
       debugInfo (after state_with_image
                    (generateImage "key" (answer blocked_response) state_with_image))
       = line_sending state_with_image :: "Received response from Gemini API"
           :: "Processing response" :: rest.
Proof.
  split; [reflexivity|].
  destruct (generateImage_trace_fresh "key" (answer blocked_response)
              state_with_image blocked_response
              ltac:(discriminate) ltac:(discriminate) ltac:(discriminate) eq_refl)
    as (rest & Hd & _ & _).
  exists rest. exact Hd.
Defined.

(** ** Every run of saveImage *)

Lemma truthy_true (s : string) : JS.truthy s = true -> s <> "".
Proof.
  unfold JS.truthy. destruct (String.eqb_spec s ""); [discriminate | auto].
Qed.

Lemma truthy_false (s : string) : JS.truthy s = false -> s = "".
Proof.
  unfold JS.truthy. destruct (String.eqb_spec s ""); [auto | discriminate].
Qed.

(** A run of the handler is one of four. *)
Lemma save_shape (s : State) :
  ((image s = None \/ word s = "") /\ saveImage s = ([], inr tt))
  \/ (exists part inline decoded,
        image s = Some part /\ inlineData part = Some inline /\ word s <> ""
        /\ Base64.atob (data inline) = inr decoded
        /\ saveImage s = ([save_request (word s) inline decoded], inr tt))
  \/ (exists part inline err,
        image s = Some part /\ inlineData part = Some inline /\ word s <> ""
        /\ Base64.atob (data inline) = inl err
        /\ saveImage s
           = ([ ConsoleError "Error saving image:" err;
                SetError (Some ("Failed to save image: "
                                  ++ JS.message_or err "Unknown error")) ],
              inr tt))
  \/ (exists part,
        image s = Some part /\ inlineData part = None /\ word s <> ""
        /\ saveImage s = ([SetError (Some "No valid image data to save")], inr tt)).
Proof.
  destruct (image s) as [part|] eqn:Hi.
  2:{ left. split; [left; reflexivity|]. unfold saveImage. rewrite Hi. reflexivity. }
  destruct (JS.truthy (word s)) eqn:Ht.
  2:{ left. split; [right; apply truthy_false; exact Ht|].
      unfold saveImage. rewrite Hi, Ht. reflexivity. }
  apply truthy_true in Ht.
  destruct (inlineData part) as [inline|] eqn:Hp.
  - destruct (Base64.atob (data inline)) as [err|decoded] eqn:Hd.
    + right. right. left. exists part, inline, err. repeat split; try assumption.
      apply (save_run_decode_error _ _ _ _ Hi Hp Ht Hd).
    + right. left. exists part, inline, decoded. repeat split; try assumption.
      apply (save_run _ _ _ _ Hi Hp Ht Hd).
  - right. right. right. exists part. repeat split; try assumption.
    unfold saveImage. rewrite Hi, (truthy_nonempty _ Ht), Hp. reflexivity.
Qed.

Lemma split_segments (s seg : string) : In seg (split "/" s) -> no_slash seg.
Proof.
  revert seg. induction s as [|c s IH]; intros seg Hin; simpl in Hin.
  - destruct Hin as [<-|[]]. intros [].
  - destruct (Ascii.eqb_spec c "/") as [E|E].
    + destruct Hin as [<-|Hin]; [intros [] | exact (IH _ Hin)].
    + destruct (split "/" s) as [|h t] eqn:Es.
      * destruct Hin as [<-|[]]. intros [H|[]]. exact (E H).
      * destruct Hin as [<-|Hin].
        -- intros [H|H]; [exact (E H)|].
           exact (IH h (or_introl eq_refl) H).
        -- apply IH. right. exact Hin.
Qed.

Lemma extension_of_shape (mt : string) :
  extension_of mt <> "" /\ no_slash (extension_of mt).
Proof.
  unfold extension_of.
  destruct (nth_error (split "/" mt) 1) as [sub|] eqn:E.
  - destruct (JS.truthy sub) eqn:Ht.
    + split; [exact (truthy_true _ Ht)|].
      apply (split_segments mt). exact (nth_error_In _ _ E).
    + split; [discriminate|]. intros H. simpl in H. intuition discriminate.
  - split; [discriminate|]. intros H. simpl in H. intuition discriminate.
Qed.

(** X6: every file that [saveImage] asks to save is named by the word, which
    is not empty, a dot, and an extension that is not empty and holds no
    slash, whatever the MIME type of the stored image; the blob is given
    that MIME type. *)
Theorem saveImage_file_name (s : State) (blob : Blob) (name : string) :
  In (SaveAs blob name) (Eff.effects (saveImage s)) ->
  word s <> ""
  /\ exists inline ext,
       image s ?. inlineData = Some inline
       /\ blob_type blob = mimeType inline
       /\ name = word s ++ "." ++ ext
       /\ ext <> "" /\ no_slash ext.
Proof.
  intros Hin.
  destruct (save_shape s)
    as [(_ & Hrun)
       |[(part & inline & decoded & Hi & Hp & Hw & Hd & Hrun)
        |[(part & inline & err & Hi & Hp & Hw & Hd & Hrun)
         |(part & Hi & Hp & Hw & Hrun)]]];
    rewrite Hrun in Hin; simpl in Hin.
  - contradiction.
  - destruct Hin as [Hin|[]]. unfold save_request in Hin.
    injection Hin as <- <-. split; [exact Hw|].
    exists inline, (extension_of (mimeType inline)).
    rewrite Hi. simpl. split; [exact Hp|]. split; [reflexivity|].
    split; [reflexivity|]. apply extension_of_shape.
  - destruct Hin as [Hin|[Hin|[]]]; discriminate.
  - destruct Hin as [Hin|[]]; discriminate.
Qed.

Lemma saveImage_file_name_witness :
  exists ext, "cat.jpeg" = word cat_state ++ "." ++ ext /\ ext <> "".
Proof.
  destruct (saveImage_file_name cat_state
              {| bytes := char_codes "abc"; blob_type := "image/jpeg" |} "cat.jpeg"
              (or_introl eq_refl))
    as (_ & inline & ext & _ & _ & Hn & He & _).
  exists ext. split; [exact Hn | exact He].
Defined.

(** X7: [saveImage] never throws and writes no cell but the error: the
    stored image, the trace, the loading flag, the word and the style are
    as before.  It makes at most one save request, and when it makes one it
    leaves the error as it was, so that an earlier message stays. *)
Theorem saveImage_keeps_cells (s : State) :
  let m := saveImage s in
  let s' := after s m in
  image s' = image s /\ debugInfo s' = debugInfo s /\ loading s' = loading s
  /\ word s' = word s /\ style s' = style s
  /\ length (saves (Eff.effects m)) <= 1
  /\ (saves (Eff.effects m) <> [] -> error s' = error s).
Proof.
  cbv zeta.
  destruct (save_shape s)
    as [(_ & Hrun)
       |[(part & inline & decoded & Hi & Hp & Hw & Hd & Hrun)
        |[(part & inline & err & Hi & Hp & Hw & Hd & Hrun)
         |(part & Hi & Hp & Hw & Hrun)]]];
    rewrite Hrun; unfold after, Eff.effects, fst; simpl;
    repeat split; auto; intros H; contradiction.
Qed.

Lemma saveImage_keeps_cells_witness :
  let s := apply_effect cat_state (SetError (Some msg_blocked)) in
  saves (Eff.effects (saveImage s)) <> []
  /\ error (after s (saveImage s)) = Some msg_blocked.
Proof.
  intros s.
  assert (Hs : saves (Eff.effects (saveImage s)) <> []) by (vm_compute; discriminate).
  split; [exact Hs|].
  destruct (saveImage_keeps_cells s) as (_ & _ & _ & _ & _ & _ & He).
  exact (He Hs).
Defined.

(** ** The rendering *)

(** X8: the image on the screen is the image that is saved: when the view
    shows an image, its source is the data URL made of the MIME type and the
    base64 text of the stored inline data, the Save button is enabled, and a
    click on it, with a non-empty word and text that decodes, saves the
    decoded bytes of that same text under that same MIME type. *)
Theorem render_image_is_saved_image (s : State) (img : ImgElement) :
  generated_image (render s) = Some img ->
  save_disabled (render s) = false
  /\ exists inline,
       src img = "data:" ++ mimeType inline ++ ";base64," ++ data inline
       /\ alt img = "AI generated image of " ++ word s
       /\ forall decoded,
            word s <> "" ->
            Base64.atob (data inline) = inr decoded ->
            Eff.effects (saveImage s) = [save_request (word s) inline decoded].
Proof.
  unfold render. cbn [generated_image save_disabled].
  destruct (image s) as [part|] eqn:Hi; [|discriminate].
  cbn [JS.chain]. destruct (inlineData part) as [inline|] eqn:Hp; [|discriminate].
  intros H. injection H as <-. split; [reflexivity|].
  exists inline. split; [reflexivity|]. split; [reflexivity|].
  intros decoded Hw Hd. rewrite (save_run _ _ _ _ Hi Hp Hw Hd). reflexivity.
Qed.

Lemma render_image_is_saved_image_witness :
  generated_image (render cat_state)
  = Some {| src := "data:image/jpeg;base64,YWJj"; alt := "AI generated image of cat" |}
  /\ save_disabled (render cat_state) = false.
Proof.
  split; [reflexivity|].
  exact (proj1 (render_image_is_saved_image cat_state _ eq_refl)).
Defined.



(** ** Sessions *)

(** A property of the cells that every event keeps stays true along a
    session, and a property that holds of the effects of every event holds
    of all the effects of the session. *)
Lemma session_invariant (API_KEY : string) (I : State -> Prop) (P : Effect -> Prop) :
  (forall s e, I s ->
     I (fst (dispatch API_KEY s e)) /\ Forall P (snd (dispatch API_KEY s e))) ->
  forall events s, I s ->
    I (fst (session API_KEY s events)) /\ Forall P (snd (session API_KEY s events)).
Proof.
  intros Hstep. induction events as [|e events IH]; intros s Hs; simpl.
  - split; [exact Hs | constructor].
  - destruct (Hstep s e Hs) as (H1 & HP1).
    destruct (dispatch API_KEY s e) as [s1 l1]. simpl in H1, HP1.
    destruct (IH s1 H1) as (H2 & HP2).
    destruct (session API_KEY s1 events) as [s2 l2]. simpl in H2, HP2 |- *.
    split; [exact H2 | apply Forall_app; split; assumption].
Qed.

(** The Generate button takes a click when nothing is loading and both
    fields are filled. *)
Lemma generate_enabled (s : State) :
  generate_disabled (render s) = false ->
  loading s = false /\ word s <> "" /\ style s <> "".
Proof.
  unfold render. cbn [generate_disabled]. intros H.
  apply orb_false_elim in H. destruct H as [H Hs].
  apply orb_false_elim in H. destruct H as [Hl Hw].
  apply negb_false_iff in Hw, Hs.
  split; [exact Hl|]. split; apply truthy_true; assumption.
Qed.

(** The effects of one click on an enabled Generate button. *)
Lemma click_generate_effects (API_KEY : string) (api : Service) (s : State)
    (P : Effect -> Prop) :
  word s <> "" -> style s <> "" ->
  (forall e, In e (prefix_effects s) -> P e) ->
  (forall err e, In e (rejected_suffix s err) -> P e) ->
  (forall e, In e (blocked_suffix s) -> P e) ->
  (forall p inline e, inlineData p = Some inline -> In e (image_suffix s p inline) -> P e) ->
  (forall response e, In e (no_image_suffix s response) -> P e) ->
  P (SetError (Some msg_missing_key)) ->
  Forall P (Eff.effects (generateImage API_KEY api s)).
Proof.
  intros Hw Hs Hpre Hrej Hblk Himg Hno Hkey.
  destruct (String.eqb_spec API_KEY "") as [Ek|Hk].
  - destruct (run_guarded API_KEY api s (or_intror (or_intror Ek)))
      as (msg & -> & [(_ & [E|E])|(-> & _)]); try contradiction.
    repeat constructor. exact Hkey.
  - apply Forall_forall. intros e.
    run_by_cases Hw Hs Hk; unfold Eff.effects, fst; intros Hin;
      apply in_app_or in Hin; destruct Hin as [Hin|Hin]; eauto.
Qed.

(** X10: in a session that starts with the initial cells, the stored image
    always carries inline data.  So the Save button is enabled exactly when
    an image is on the screen, and the message "No valid image data to save"
    is never set. *)
Theorem session_image_has_data (API_KEY : string) (events : list Event) :
  let s := fst (session API_KEY initial_state events) in
  image_has_data s
  /\ (save_disabled (render s) = false <-> generated_image (render s) <> None)
  /\ ~ In (SetError (Some "No valid image data to save"))
          (snd (session API_KEY initial_state events)).
Proof.
  cbv zeta.
  destruct (session_invariant API_KEY image_has_data
              (fun e => e <> SetError (Some "No valid image data to save")))
    with (events := events) (s := initial_state) as (HI & HP).
  - intros s e HI. destruct e as [value|value|api|];
      unfold dispatch; cbn [fst snd].
    + split; [exact HI | constructor].
    + split; [exact HI | constructor].
    + destruct (generate_disabled (render s)) eqn:Hd; cbn [fst snd];
        [split; [exact HI | constructor]|].
      destruct (generate_enabled s Hd) as (_ & Hw & Hs). split.
      * destruct (guards_dec API_KEY s) as [(_ & _ & Hk)|Hg].
        -- run_by_cases Hw Hs Hk; try exact HI.
           intros q Hq. injection Hq as <-. rewrite Hp. discriminate.
        -- destruct (run_guarded API_KEY api s Hg) as (msg & -> & _). exact HI.
      * apply click_generate_effects; try assumption;
          try (intros; simpl in *; intuition (subst; discriminate));
          discriminate.
    + destruct (save_disabled (render s)) eqn:Hd; cbn [fst snd];
        [split; [exact HI | constructor]|].
      destruct (save_shape s)
        as [(_ & Hrun)
           |[(part & inline & decoded & Hi & Hp & Hw & Hdec & Hrun)
            |[(part & inline & err & Hi & Hp & Hw & Hdec & Hrun)
             |(part & Hi & Hp & Hw & Hrun)]]];
        rewrite Hrun; unfold after, Eff.effects, fst; simpl.
      * split; [exact HI | constructor].
      * split; [exact HI | repeat constructor; discriminate].
      * split; [exact HI | repeat constructor; discriminate].
      * exfalso. exact (HI part Hi Hp).
  - intros p Hp. discriminate Hp.
  - split; [exact HI|]. split.
    + unfold render. cbn [save_disabled generated_image].
      destruct (image (fst (session API_KEY initial_state events)))
        as [part|] eqn:Hi; cbn [JS.chain].
      * specialize (HI part Hi).
        destruct (inlineData part); [|contradiction].
        split; intros _; [discriminate | reflexivity].
      * split; [discriminate | intros H; contradiction].
    + intros Hin. exact (proj1 (Forall_forall _ _) HP _ Hin eq_refl).
Qed.


(** X12: the first guard of [generateImage] is never the one that stops a
    click: the button is disabled when the word or the style is empty, so no
    session, from whatever cells, sets the message "Please enter both a word
    and style". *)
Theorem session_never_missing_fields
    (API_KEY : string) (s : State) (events : list Event) :
  ~ In (SetError (Some "Please enter both a word and style"))
       (snd (session API_KEY s events)).
Proof.
  destruct (session_invariant API_KEY (fun _ => True)
              (fun e => e <> SetError (Some "Please enter both a word and style")))
    with (events := events) (s := s) as (_ & HP).
  - intros s0 e _. split; [exact I|].
    destruct e as [value|value|api|]; unfold dispatch; cbn [fst snd];
      try constructor.
    + destruct (generate_disabled (render s0)) eqn:Hd; cbn [fst snd];
        [constructor|].
      destruct (generate_enabled s0 Hd) as (_ & Hw & Hs).
      apply click_generate_effects; try assumption;
        try (intros; simpl in *; intuition (subst; discriminate));
        discriminate.
    + destruct (save_disabled (render s0)); cbn [fst snd]; [constructor|].
      destruct (save_shape s0)
        as [(_ & Hrun)
           |[(part & inline & decoded & _ & _ & _ & _ & Hrun)
            |[(part & inline & err & _ & _ & _ & _ & Hrun)
             |(part & _ & _ & _ & Hrun)]]];
        rewrite Hrun; unfold Eff.effects, fst; repeat constructor; discriminate.
  - exact I.
  - intros Hin. exact (proj1 (Forall_forall _ _) HP _ Hin eq_refl).
Qed.

Lemma quiet_effects (l : list Effect) :
  Forall quiet l -> calls l = [] /\ saves l = [].
Proof.
  induction 1 as [|e l He _ (IHc & IHs)]; [split; reflexivity|].
  destruct e; simpl in He; try contradiction; simpl; auto.
Qed.

(** X13: when the environment variable of the key is undefined or empty, a
    session that starts with the initial cells never calls the service,
    never stores an image and never saves a file; the only error it can
    leave is the message about the missing key. *)
Theorem session_without_key (env : option string) (events : list Event) :
  env = None \/ env = Some "" ->
  let r := session (API_KEY_of env) initial_state events in
  calls (snd r) = []
  /\ saves (snd r) = []
  /\ image (fst r) = None
  /\ (error (fst r) = None \/ error (fst r) = Some msg_missing_key).
Proof.
  intros Henv. cbv zeta.
  assert (Hkey : API_KEY_of env = "") by (destruct Henv as [->| ->]; reflexivity).
  rewrite Hkey.
  destruct (session_invariant ""
              (fun s => image s = None
                        /\ (error s = None \/ error s = Some msg_missing_key))
              quiet)
    with (events := events) (s := initial_state) as ((Hi & He) & HP).
  - intros s e (Hi & He). destruct e as [value|value|api|];
      unfold dispatch; cbn [fst snd].
    + split; [split; assumption | constructor].
    + split; [split; assumption | constructor].
    + destruct (generate_disabled (render s)) eqn:Hd; cbn [fst snd];
        [split; [split; assumption | constructor]|].
      destruct (generate_enabled s Hd) as (_ & Hw & Hs).
      destruct (run_guarded "" api s (or_intror (or_intror eq_refl)))
        as (msg & -> & [(_ & [E|E])|(-> & _)]); try contradiction.
      split; [split; [exact Hi | right; reflexivity]|].
      repeat constructor.
    + unfold render. cbn [save_disabled]. rewrite Hi.
      split; [split; assumption | constructor].
  - split; [reflexivity | left; reflexivity].
  - destruct (quiet_effects _ HP) as (Hc & Hs). auto.
Qed.

Lemma session_without_key_witness :
  let r := session (API_KEY_of None) initial_state sample_events in
  calls (snd r) = [] /\ error (fst r) = Some msg_missing_key.
Proof.
  destruct (session_without_key None sample_events (or_introl eq_refl))
    as (Hc & _ & _ & _).
  split; [exact Hc | reflexivity].
Defined.

(** X14: a session calls the service at most once for each click on the
    Generate button and asks for at most one save for each click on the Save
    button: typing calls nothing, and no click is answered twice. *)
Theorem session_counts (API_KEY : string) (s : State) (events : list Event) :
  length (calls (snd (session API_KEY s events))) <= generate_clicks events
  /\ length (saves (snd (session API_KEY s events))) <= save_clicks events.
Proof.
  revert s. induction events as [|e events IH]; intros s.
  - split; apply Nat.le_refl.
  - cbn [session].
    assert (He : length (calls (snd (dispatch API_KEY s e)))
                 <= generate_clicks [e]
                 /\ length (saves (snd (dispatch API_KEY s e)))
                    <= save_clicks [e]).
    { destruct e as [value|value|api|]; unfold dispatch; cbn [fst snd];
        try (split; apply Nat.le_refl).
      - destruct (generate_disabled (render s)) eqn:Hd; cbn [fst snd];
          [split; [apply Nat.le_0_l | apply Nat.le_refl]|].
        destruct (generate_enabled s Hd) as (_ & Hw & Hs).
        destruct (guards_dec API_KEY s) as [(_ & _ & Hk)|Hg].
        + run_by_cases Hw Hs Hk; split; cbn; auto.
        + destruct (run_guarded API_KEY api s Hg) as (msg & -> & _).
          split; cbn; auto.
      - destruct (save_disabled (render s)); cbn [fst snd];
          [split; [apply Nat.le_refl | apply Nat.le_0_l]|].
        destruct (save_shape s)
          as [(_ & Hrun)
             |[(part & inline & decoded & _ & _ & _ & _ & Hrun)
              |[(part & inline & err & _ & _ & _ & _ & Hrun)
               |(part & _ & _ & _ & Hrun)]]];
          rewrite Hrun; split; cbn; auto. }
    destruct (dispatch API_KEY s e) as [s1 l1]. cbn [fst snd] in He.
    specialize (IH s1).
    destruct (session API_KEY s1 events) as [s2 l2]. cbn [fst snd] in IH |- *.
    unfold calls, saves in *. rewrite !flat_map_app, !length_app.
    unfold generate_clicks, save_clicks in *.
    destruct He as (Hc & Hs). destruct IH as (IHc & IHs).
    destruct e; cbn [filter length] in *; lia.
Qed.

(** The image and the error that an answered request leaves, read off the
    two tests of the classification. *)
Lemma run_answered (API_KEY : string) (api : Service) (s : State)
    (response : Response) :
  word s <> "" -> style s <> "" -> API_KEY <> "" ->
  api model_name (sent_request s) = inr response ->
  let s' := after s (generateImage API_KEY api s) in
  image s' = (if safety_blocked response then image s
              else match find_imagePart response ?. inlineData with
                   | Some _ => find_imagePart response
                   | None => image s
                   end)
  /\ error s' = (if safety_blocked response then Some msg_blocked
                 else match find_imagePart response ?. inlineData with
                      | Some _ => None
                      | None => Some msg_no_image
                      end).
Proof.
  intros Hw Hs Hk Hans. cbv zeta.
  destruct (run_shape API_KEY api s Hw Hs Hk)
    as [(err & Hapi & _)
       |[(r & Hapi & Hb & Hrun)
        |[(r & p & inline & Hapi & Hb & Hf & Hp & Hrun)
         |(r & Hapi & Hb & Hf & Hrun)]]];
    rewrite Hans in Hapi; [discriminate| | |];
    injection Hapi as <-; rewrite Hrun, Hb.
  - split; reflexivity.
  - rewrite Hf. cbn [JS.chain]. rewrite Hp. split; reflexivity.
  - rewrite Hf. split; reflexivity.
Qed.

(** X15: only the first candidate of the answer counts.  Two answers with
    the same first candidate leave the same stored image and the same error,
    whatever candidates follow: an image in a later candidate is not
    used. *)
Theorem generateImage_first_candidate_only
    (API_KEY : string) (api1 api2 : Service) (s : State)
    (r1 r2 : Response) (first : Candidate) (rest1 rest2 : list Candidate) :
  word s <> "" -> style s <> "" -> API_KEY <> "" ->
  api1 model_name (sent_request s) = inr r1 ->
  api2 model_name (sent_request s) = inr r2 ->
  candidates r1 = Some (first :: rest1) ->
  candidates r2 = Some (first :: rest2) ->
  let s1 := after s (generateImage API_KEY api1 s) in
  let s2 := after s (generateImage API_KEY api2 s) in
  image s1 = image s2 /\ error s1 = error s2.
Proof.
  intros Hw Hs Hk H1 H2 Hc1 Hc2. cbv zeta.
  destruct (run_answered API_KEY api1 s r1 Hw Hs Hk H1) as (Hi1 & He1).
  destruct (run_answered API_KEY api2 s r2 Hw Hs Hk H2) as (Hi2 & He2).
  assert (Hb : safety_blocked r1 = safety_blocked r2).
  { unfold safety_blocked. rewrite Hc1, Hc2. reflexivity. }
  assert (Hf : find_imagePart r1 = find_imagePart r2).
  { unfold find_imagePart. rewrite Hc1, Hc2. reflexivity. }
  rewrite Hi1, Hi2, He1, He2, Hb, Hf. split; reflexivity.
Qed.

Lemma generateImage_first_candidate_only_witness :
  let later := {| candidates :=
                    Some [ candidate_of [text_part] None;
                           candidate_of [inline_part png_inline] None ] |} in
  image (after fox_state (generateImage "key" (answer later) fox_state)) = None
  /\ error (after fox_state (generateImage "key" (answer later) fox_state))
     = Some msg_no_image.
Proof.
  intros later.
  destruct (generateImage_first_candidate_only "key" (answer later)
              (answer text_response) fox_state later text_response
              (candidate_of [text_part] None)
              [candidate_of [inline_part png_inline] None] []
              ltac:(discriminate) ltac:(discriminate) ltac:(discriminate)
              eq_refl eq_refl eq_refl eq_refl)
    as (Hi & He).
  split; [rewrite Hi | rewrite He]; reflexivity.
Defined.
